(** * DDL-Indexarr: link resolution and download reconciliation engine

    A shallow embedding of the engine behind the Newznab and SABnzbd
    facades, with the properties its specification states.

    Conventions of the embedding.
    - A Python [str] is a [string]: the sequence of bytes of its UTF-8
      encoding.  Case mapping ([lower], [upper], [re.IGNORECASE]) and the
      regular-expression classes act on the ASCII range.
    - A Python [int] is a [Z]; a value that may be [None] is an [option].
    - A [float] holding a size in GB or MB is the exact decimal it was
      written as; [int(x * 1024 * 1024 * 1024)] is the floor of the exact
      product.  The two agree on every constant of [estimate_file_size].
    - [datetime] values are microseconds since the epoch.
    - A [dict] keyed by identifiers is a [gmap]. *)

From Stdlib Require Import ZArith Ascii String.
From Stdlib Require QArith_base.
From stdpp Require Import base option list gmap strings pretty sorting.

Local Open Scope Z_scope.

(** ** Python string primitives *)

Module PyStr.

Definition is_upper (c : ascii) : bool :=
  let n := N_of_ascii c in ((65 <=? n) && (n <=? 90))%N.

Definition is_lower (c : ascii) : bool :=
  let n := N_of_ascii c in ((97 <=? n) && (n <=? 122))%N.

Definition lower_char (c : ascii) : ascii :=
  if is_upper c then ascii_of_N (N_of_ascii c + 32) else c.

Definition upper_char (c : ascii) : ascii :=
  if is_lower c then ascii_of_N (N_of_ascii c - 32) else c.

Fixpoint map_chars (f : ascii → ascii) (s : string) : string :=
  match s with
  | EmptyString => EmptyString
  | String c s' => String (f c) (map_chars f s')
  end.

(** [s.lower()] and [s.upper()] *)
Definition lower : string → string := map_chars lower_char.
Definition upper : string → string := map_chars upper_char.

(** [s.startswith(p)] *)
Definition startswith (p s : string) : bool := String.prefix p s.

(** [sub in s] *)
Fixpoint contains (sub s : string) : bool :=
  String.prefix sub s ||
  match s with
  | EmptyString => false
  | String _ s' => contains sub s'
  end.

(** [any(x in s for x in subs)] *)
Definition contains_any (subs : list string) (s : string) : bool :=
  existsb (λ x, contains x s) subs.

(** Truth value of a string: non-empty. *)
Definition truthy (s : string) : bool :=
  match s with EmptyString => false | _ => true end.

(** Truth value of a string that may be [None]. *)
Definition opt_truthy (s : option string) : bool :=
  match s with Some s => truthy s | None => false end.

(** [s.replace(c, r)] for a one-character [c]. *)
Fixpoint replace_char (c : ascii) (r : string) (s : string) : string :=
  match s with
  | EmptyString => EmptyString
  | String d s' =>
      if Ascii.eqb d c then r +:+ replace_char c r s'
      else String d (replace_char c r s')
  end.

(** [s.replace(old, new)] for a non-empty [old]: leftmost occurrences,
    not overlapping.  [skip] counts the characters of an occurrence
    already replaced that are still to be passed over. *)
Fixpoint replace_go (old new : string) (skip : nat) (s : string) : string :=
  match s with
  | EmptyString => EmptyString
  | String d s' =>
      match skip with
      | S k => replace_go old new k s'
      | O =>
          if String.prefix old s
          then new +:+ replace_go old new (String.length old - 1)%nat s'
          else String d (replace_go old new O s')
      end
  end.

Definition replace (old new s : string) : string := replace_go old new O s.

(** [sep.join(parts)] *)
Definition join (sep : string) (parts : list string) : string :=
  String.concat sep parts.

(** [str(n)] for an integer. *)
Definition str_of_int (n : Z) : string := pretty n.

(** [f"{n:02d}"] *)
Definition fmt_02d (n : Z) : string :=
  if (0 <=? n) && (n <? 10) then "0" +:+ str_of_int n else str_of_int n.

(** [d.get(k)] on a dict written as a literal: the keys are distinct. *)
Fixpoint assoc {V} (k : string) (d : list (string * V)) : option V :=
  match d with
  | [] => None
  | (k', v) :: d' => if String.eqb k k' then Some v else assoc k d'
  end.

(** [k in l] for a list of strings *)
Definition mem (k : string) (l : list string) : bool :=
  existsb (String.eqb k) l.

End PyStr.

(** ** The regular expressions of the NFO parsers

    The patterns the source hands to [re.search] are sequences of the
    atoms below, searched leftmost-first with greedy repetition and
    backtracking, case-insensitively. *)

Module Re.
Import PyStr.

Inductive atom :=
| ALit (t : string)            (* literal text *)
| AOpt (cls : ascii → bool)    (* [c?], the character given as a class *)
| AClass (cls : ascii → bool)  (* one character of a class *)
| AStar (cls : ascii → bool)   (* [cls*] *)
| AAlt (alts : list string)    (* [(t1|t2|...)] *)
| AWordB.                      (* [\b] *)

(** [\s], [\d] and [\w] on the ASCII range *)
Definition is_space (c : ascii) : bool :=
  let n := N_of_ascii c in
  (((9 <=? n) && (n <=? 13)) || ((28 <=? n) && (n <=? 32)))%N.

Definition is_digit (c : ascii) : bool :=
  let n := N_of_ascii c in ((48 <=? n) && (n <=? 57))%N.

Definition is_word (c : ascii) : bool :=
  is_digit c || is_upper c || is_lower c || Ascii.eqb c "_".

Definition ieq (a b : ascii) : bool := Ascii.eqb (lower_char a) (lower_char b).

Fixpoint iprefix (p s : string) : option (string * string) :=
  match p with
  | EmptyString => Some (EmptyString, s)
  | String a p' =>
      match s with
      | EmptyString => None
      | String b s' =>
          if ieq a b then
            match iprefix p' s' with
            | Some (t, rest) => Some (String b t, rest)
            | None => None
            end
          else None
      end
  end.

Fixpoint last_char (prev : option ascii) (t : string) : option ascii :=
  match t with
  | EmptyString => prev
  | String c t' => last_char (Some c) t'
  end.

Definition word_side (c : option ascii) : bool :=
  match c with Some a => is_word a | None => false end.

Definition head_char (s : string) : option ascii :=
  match s with EmptyString => None | String c _ => Some c end.

(** [match_atoms atoms prev s]: match [atoms] at the start of [s], the
    character before it being [prev]; the text consumed by each atom. *)
Fixpoint match_atoms (atoms : list atom) (prev : option ascii) (s : string)
  : option (list string) :=
  match atoms with
  | [] => Some []
  | ALit t :: r =>
      match iprefix t s with
      | Some (m, rest) => cons m <$> match_atoms r (last_char prev m) rest
      | None => None
      end
  | AOpt cls :: r =>
      let skip := cons EmptyString <$> match_atoms r prev s in
      match s with
      | String d s' =>
          if cls d then
            match match_atoms r (Some d) s' with
            | Some caps => Some (String d EmptyString :: caps)
            | None => skip
            end
          else skip
      | EmptyString => skip
      end
  | AClass cls :: r =>
      match s with
      | String d s' =>
          if cls d then cons (String d EmptyString) <$> match_atoms r (Some d) s'
          else None
      | EmptyString => None
      end
  | AStar cls :: r =>
      (fix star (prev : option ascii) (s : string) : option (list string) :=
         let stop := cons EmptyString <$> match_atoms r prev s in
         match s with
         | String d s' =>
             if cls d then
               match star (Some d) s' with
               | Some (m :: caps) => Some (String d m :: caps)
               | _ => stop
               end
             else stop
         | EmptyString => stop
         end) prev s
  | AAlt alts :: r =>
      (fix alt (l : list string) : option (list string) :=
         match l with
         | [] => None
         | t :: l' =>
             match iprefix t s with
             | Some (m, rest) =>
                 match match_atoms r (last_char prev m) rest with
                 | Some caps => Some (m :: caps)
                 | None => alt l'
                 end
             | None => alt l'
             end
         end) alts
  | AWordB :: r =>
      if xorb (word_side prev) (word_side (head_char s))
      then cons EmptyString <$> match_atoms r prev s
      else None
  end.

(** [re.search]: the first position at which the pattern matches. *)
Fixpoint search_from (atoms : list atom) (prev : option ascii) (s : string)
  : option (list string) :=
  match match_atoms atoms prev s with
  | Some caps => Some caps
  | None =>
      match s with
      | EmptyString => None
      | String c s' => search_from atoms (Some c) s'
      end
  end.

Definition search (atoms : list atom) (s : string) : option (list string) :=
  search_from atoms None s.

(** The text of the atoms [i, i+n) of a match. *)
Definition group (caps : list string) (i n : nat) : string :=
  String.concat "" (take n (drop i caps)).

End Re.

(** ** Data model (app/models) *)

Inductive MediaType := MOVIE | TV | MUSIC.

Global Instance MediaType_eq_dec : EqDecision MediaType.
Proof. solve_decision. Defined.

(** A link as [_parse_link] builds it.  [nfo] holds the text of the
    ["nfo"] field of each note attached to the link. *)
Record Link := {
  link_id : option Z;
  link_title_id : Z;
  link_title : string;
  link_year : option Z;
  link_quality : string;
  link_host : string;
  link_audio_languages : list string;
  link_subtitles : list string;
  link_size : Z;
  link_season : option Z;
  link_episode : option Z;
  link_nfo : list string;
  link_download_url : option string;
}.

Global Instance Link_eq_dec : EqDecision Link.
Proof. solve_decision. Defined.

(** Decimal constants and parsed decimals: [dec_mant / 10 ^ dec_frac]. *)
Record decimal := { dec_mant : Z; dec_frac : nat }.

Definition dec_scale (d : decimal) (n : Z) : decimal :=
  {| dec_mant := dec_mant d * n; dec_frac := dec_frac d |}.

(** [int(x * 1024 * 1024 * 1024)] and [int(x * 1024 * 1024)] *)
Definition bytes_of_gb (d : decimal) : Z :=
  (dec_mant d * (1024 * 1024 * 1024)) / 10 ^ Z.of_nat (dec_frac d).

Definition bytes_of_mb (d : decimal) : Z :=
  (dec_mant d * (1024 * 1024)) / 10 ^ Z.of_nat (dec_frac d).

(** ** app/api/newznab.py *)

Module Newznab.
Import PyStr.

Definition QUALITY_MAPPING : list (string * string) :=
  [ ("ULTRA HD (x265)", "Bluray-2160p");
    ("ULTRA HD", "Bluray-2160p");
    ("UHD (x265)", "Bluray-2160p");
    ("UHD", "Bluray-2160p");
    ("Ultra HDLight (x265)", "WEBDL-2160p");
    ("Ultra HDLight", "WEBDL-2160p");
    ("REMUX UHD", "Bluray-2160p Remux");
    ("REMUX 4K", "Bluray-2160p Remux");
    ("REMUX BLURAY 2160p", "Bluray-2160p Remux");
    ("4K", "WEBDL-2160p");
    ("2160p", "WEBDL-2160p");
    ("REMUX BLURAY", "Bluray-1080p Remux");
    ("REMUX", "Bluray-1080p Remux");
    ("REMUX 1080p", "Bluray-1080p Remux");
    ("Bluray 1080p", "Bluray-1080p");
    ("Bluray", "Bluray-1080p");
    ("BDRip 1080p", "Bluray-1080p");
    ("BRRip 1080p", "Bluray-1080p");
    ("HDLight 1080p (x265)", "WEBDL-1080p");
    ("HDLight 1080p", "WEBDL-1080p");
    ("WEB 1080p", "WEBDL-1080p");
    ("WEB-DL 1080p", "WEBDL-1080p");
    ("WEBDL 1080p", "WEBDL-1080p");
    ("WEBRip 1080p", "WEBRip-1080p");
    ("1080p", "WEBDL-1080p");
    ("Bluray 720p", "Bluray-720p");
    ("HDLight 720p (x265)", "WEBDL-720p");
    ("HDLight 720p", "WEBDL-720p");
    ("WEB-DL 720p", "WEBDL-720p");
    ("WEBRip 720p", "WEBRip-720p");
    ("720p", "WEBDL-720p");
    ("DVDRIP", "DVD");
    ("DVDRip", "DVD");
    ("DVD", "DVD");
    ("HDTV 1080p", "HDTV-1080p");
    ("HDTV 720p", "HDTV-720p");
    ("HDTV", "HDTV-1080p");
    ("Blu-Ray 3D", "Bluray-1080p");
    ("REMUX 3D", "Bluray-1080p Remux");
    ("ISO", "BR-DISK");
    ("Autre", "WEBDL-1080p") ].

(** [float(size_str)] on a string of digits and dots: at most one dot
    and at least one digit, otherwise [ValueError]. *)
Fixpoint parse_float_go (s : string) (mant : Z) (frac : option nat)
    (digits : bool) : option decimal :=
  match s with
  | EmptyString =>
      if digits
      then Some {| dec_mant := mant; dec_frac := default O frac |}
      else None
  | String c s' =>
      if Re.is_digit c then
        parse_float_go s' (mant * 10 + Z.of_N (N_of_ascii c - 48))
                       (S <$> frac) true
      else if Ascii.eqb c "." then
        match frac with
        | None => parse_float_go s' mant (Some O) digits
        | Some _ => None
        end
      else None
  end.

Definition parse_float (s : string) : option decimal :=
  parse_float_go s 0 None false.

Definition num_class (c : ascii) : bool :=
  Re.is_digit c || Ascii.eqb c "." || Ascii.eqb c ",".

Definition size_units : list string := ["GiB"; "GB"; "MiB"; "MB"].

(** Each pattern with the positions of its groups 1 and 2. *)
Definition size_patterns : list (list Re.atom * nat * nat) :=
  [ ([ Re.ALit "File"; Re.AStar Re.is_space; Re.ALit "size";
       Re.AStar Re.is_space; Re.ALit ":"; Re.AStar Re.is_space;
       Re.AClass num_class; Re.AStar num_class;
       Re.AStar Re.is_space; Re.AAlt size_units ], 6%nat, 9%nat);
    ([ Re.ALit "Size"; Re.AStar Re.is_space; Re.ALit ":";
       Re.AStar Re.is_space;
       Re.AClass num_class; Re.AStar num_class;
       Re.AStar Re.is_space; Re.AAlt size_units ], 4%nat, 7%nat) ].

Fixpoint size_from_patterns (pats : list (list Re.atom * nat * nat))
    (nfo_text : string) : option Z :=
  match pats with
  | [] => None
  | (pat, g1, g2) :: rest =>
      match Re.search pat nfo_text with
      | Some caps =>
          let size_str := replace_char "," "." (Re.group caps g1 2) in
          let unit := upper (Re.group caps g2 1) in
          match parse_float size_str with
          | Some size_float =>
              if mem unit ["GIB"; "GB"] then Some (bytes_of_gb size_float)
              else if mem unit ["MIB"; "MB"] then Some (bytes_of_mb size_float)
              else size_from_patterns rest nfo_text
          | None => size_from_patterns rest nfo_text
          end
      | None => size_from_patterns rest nfo_text
      end
  end.

Definition extract_size_from_nfo (nfo_data : list string) : option Z :=
  match nfo_data with
  | [] => None
  | nfo_text :: _ =>
      if truthy nfo_text then size_from_patterns size_patterns nfo_text
      else None
  end.

Definition dec (m : Z) : decimal := {| dec_mant := m; dec_frac := 1 |}.

(** [size_map], in tenths of a GB: (episode, movie). *)
Definition size_map : list (string * (decimal * decimal)) :=
  [ ("REMUX UHD", (dec 500, dec 700));
    ("REMUX 4K", (dec 500, dec 700));
    ("ULTRA HD", (dec 70, dec 150));
    ("UHD", (dec 70, dec 150));
    ("2160", (dec 60, dec 120));
    ("REMUX", (dec 250, dec 400));
    ("BLURAY 1080", (dec 40, dec 100));
    ("1080", (dec 20, dec 50));
    ("HDLIGHT 1080", (dec 15, dec 40));
    ("720", (dec 10, dec 25));
    ("HDLIGHT 720", (dec 8, dec 20));
    ("DVD", (dec 7, dec 15));
    ("480", (dec 5, dec 12)) ].

Fixpoint size_map_find (m : list (string * (decimal * decimal)))
    (quality_upper : string) : decimal * decimal :=
  match m with
  | [] => (dec 15, dec 40)
  | (pattern, sizes) :: m' =>
      if contains pattern quality_upper then sizes
      else size_map_find m' quality_upper
  end.

Definition estimate_file_size (quality : string)
    (media_type : option MediaType) (is_season_pack : bool) : Z :=
  let quality_upper := upper quality in
  let '(episode_size_gb, movie_size_gb) := size_map_find size_map quality_upper in
  let size_gb :=
    match media_type with
    | Some TV => if is_season_pack then dec_scale episode_size_gb 10
                 else episode_size_gb
    | Some MUSIC => dec 5
    | _ => movie_size_gb
    end in
  bytes_of_gb size_gb.

Definition normalize_quality (raw_quality : string) : string :=
  if negb (truthy raw_quality) || String.eqb raw_quality "Unknown"
  then "WEBDL-1080p"
  else
    match assoc raw_quality QUALITY_MAPPING with
    | Some q => q
    | None =>
        let quality_lower := lower raw_quality in
        let has x := contains x quality_lower in
        let resolution :=
          if has "2160" || has "4k" || has "uhd" || has "ultra hd" then "2160p"
          else if has "1080" then "1080p"
          else if has "720" then "720p"
          else if has "480" || has "sd" then "480p"
          else "1080p" in
        let typed (quality_type : string) := quality_type +:+ "-" +:+ resolution in
        if has "remux" then typed "Remux"
        else if has "bluray" || has "bdrip" || has "brrip" then typed "Bluray"
        else if has "webrip" then typed "WEBRip"
        else if has "hdlight" || has "web-dl" || has "webdl" || has "web "
             then typed "WEBDL"
        else if has "hdtv" then typed "HDTV"
        else if has "dvd" then "DVD"
        else typed "WEBDL"
    end.

Definition lang_map : list (string * string) :=
  [ ("French", "FRENCH"); ("TrueFrench", "TRUEFRENCH"); ("VFF", "VFF");
    ("VFQ", "VFQ"); ("VFI", "VFI"); ("VF2", "VF2"); ("English", "ENGLISH");
    ("German", "GERMAN"); ("Spanish", "SPANISH"); ("Italian", "ITALIAN");
    ("Portuguese", "PORTUGUESE"); ("Russian", "RUSSIAN");
    ("Japanese", "JAPANESE"); ("Korean", "KOREAN"); ("Chinese", "CHINESE");
    ("Arabic", "ARABIC"); ("Hindi", "HINDI"); ("French (Canada)", "VFQ");
    ("MULTI", "MULTI"); ("MULTi", "MULTI") ].

Definition normalize_language (lang : string) : string :=
  default (replace_char " " "" (upper lang)) (assoc lang lang_map).

Definition opt (c : ascii) : Re.atom := Re.AOpt (Re.ieq c).

Definition word (atoms : list Re.atom) : list Re.atom :=
  Re.AWordB :: atoms ++ [Re.AWordB].

Definition edition_patterns : list (list Re.atom) :=
  [ word [Re.ALit "EXTENDED"];
    word [Re.ALit "THEATRICAL"];
    word [Re.ALit "UNRATED"];
    word [Re.ALit "UNCUT"];
    word [Re.ALit "DIRECTOR"; opt "'"; opt "S"; opt "."; Re.ALit "CUT"];
    word [Re.ALit "FINAL"; opt "."; Re.ALit "CUT"];
    word [Re.ALit "SPECIAL"; opt "."; Re.ALit "EDITION"];
    word [Re.ALit "REMASTERED"];
    word [Re.ALit "ANNIVERSARY"];
    word [Re.ALit "COLLECTOR"; opt "S"; opt "."; Re.ALit "EDITION"];
    word [Re.ALit "CRITERION"];
    word [Re.ALit "IMAX"];
    word [Re.ALit "3D"];
    word [Re.ALit "DC"] ].

Fixpoint edition_from_patterns (pats : list (list Re.atom))
    (nfo_text : string) : option string :=
  match pats with
  | [] => None
  | pat :: rest =>
      match Re.search pat nfo_text with
      | Some caps =>
          let edition :=
            replace_char "'" ""
              (replace_char "." " "
                 (upper (Re.group caps 1 (length pat - 2)))) in
          let edition := replace "DIRECTORS CUT" "DIRECTOR'S CUT" edition in
          let edition := replace "DIRECTORSCUT" "DIRECTOR'S CUT" edition in
          Some edition
      | None => edition_from_patterns rest nfo_text
      end
  end.

Definition extract_edition_from_nfo (nfo_data : list string) : option string :=
  match nfo_data with
  | [] => None
  | nfo_text :: _ =>
      if truthy nfo_text then edition_from_patterns edition_patterns nfo_text
      else None
  end.

Definition is_tv (media_type : option MediaType) : bool :=
  match media_type with Some TV => true | _ => false end.

(** [build_release_title]: (display_title, clean_title) *)
Definition build_release_title (link : Link) (nfo_data : list string)
    (media_type : option MediaType) : string * string :=
  let title := link_title link in
  let year := link_year link in
  let season := link_season link in
  let episode := link_episode link in
  let edition :=
    if is_tv media_type then None
    else match nfo_data with
         | [] => None
         | _ => extract_edition_from_nfo nfo_data
         end in
  let quality_normalized := normalize_quality (link_quality link) in
  let audio_normalized :=
    normalize_language <$> take 3 (link_audio_languages link) in
  let parts := [title] in
  let parts :=
    match is_tv media_type, season with
    | true, Some season =>
        match episode with
        | Some episode =>
            if 0 <? episode
            then parts ++ ["S" +:+ fmt_02d season +:+ "E" +:+ fmt_02d episode]
            else parts ++ ["S" +:+ fmt_02d season]
        | None => parts ++ ["S" +:+ fmt_02d season]
        end
    | _, _ =>
        match year with
        | Some y => if y =? 0 then parts
                    else parts ++ ["(" +:+ str_of_int y +:+ ")"]
        | None => parts
        end
    end in
  let parts :=
    match edition with
    | Some e => if truthy e then parts ++ [e] else parts
    | None => parts
    end in
  let parts :=
    match audio_normalized with
    | [] => parts
    | first :: others =>
        if (1 <? length audio_normalized)%nat
           || ((length audio_normalized =? 1)%nat
               && negb (mem first ["FRENCH"; "TRUEFRENCH"]))
        then parts ++ [join "+" audio_normalized]
        else if mem first ["TRUEFRENCH"; "VFF"; "VFQ"]
        then parts ++ [first]
        else parts
    end in
  let parts := parts ++ [quality_normalized] in
  let parts :=
    match link_subtitles link with
    | [] => parts
    | subtitles =>
        let subs_normalized := normalize_language <$> take 2 subtitles in
        parts ++ ["[Subs: " +:+ join "+" subs_normalized +:+ "]"]
    end in
  let clean_title := join " " parts in
  let display_title := clean_title +:+ " [" +:+ link_host link +:+ "]" in
  (display_title, clean_title).

Definition get_category_for_quality (quality : string)
    (media_type : option MediaType) : string :=
  let q := lower quality in
  match media_type with
  | Some MOVIE =>
      if contains_any ["2160"; "uhd"] q then "2045"
      else if contains_any ["remux"; "bluray"] q then "2050"
      else if contains_any ["1080"; "720"] q then "2040"
      else if contains_any ["sd"; "dvd"; "480"] q then "2030"
      else "2040"
  | Some TV =>
      if contains_any ["2160"; "uhd"] q then "5045"
      else if contains_any ["1080"; "720"] q then "5040"
      else if contains_any ["web"] q then "5010"
      else "5040"
  | Some MUSIC =>
      if contains_any ["flac"; "lossless"] q then "3040"
      else "3010"
  | None => "2000"
  end.

(** The size of a result item, as [newznab_api] computes it. *)
Definition is_season_pack (link : Link) : bool :=
  match link_episode link with
  | None => true
  | Some e => e =? 0
  end.

Definition resolve_size (link : Link) (media_type : option MediaType) : Z :=
  let nfo_data := link_nfo link in
  let size := extract_size_from_nfo nfo_data in
  let fallback :=
    let api_size := link_size link in
    if 100000000 <? api_size then api_size
    else estimate_file_size (link_quality link) media_type (is_season_pack link) in
  match size with
  | None => fallback
  | Some size =>
      if (size =? 0) || (size <? 100000000) then fallback else size
  end.

(** The fields of a result item that the engine decides: the title is
    the clean title; the guid, the payload reference and the publish
    date are left to the facade. *)
Record item := {
  item_title : string;
  item_size : Z;
  item_category : string;
}.

Definition item_of_link (link : Link) (media_type : MediaType) : item :=
  let nfo_data := link_nfo link in
  let '(display_title, clean_title) :=
    build_release_title link nfo_data (Some media_type) in
  {| item_title := clean_title;
     item_size := resolve_size link (Some media_type);
     item_category :=
       get_category_for_quality (link_quality link) (Some media_type) |}.

End Newznab.


(** ** app/services/jdownloader.py *)

Module JDownloader.
Import PyStr.

(** U+2044 FRACTION SLASH *)
Definition fraction_slash : string :=
  String "226" (String "129" (String "132" EmptyString)).

(** [JD_CHAR_REPLACEMENTS], in the order the dict is written. *)
Definition JD_CHAR_REPLACEMENTS : list (ascii * string) :=
  [ (":"%char, ";");
    ("/"%char, fraction_slash);
    ("092"%char, "");
    ("*"%char, "");
    ("?"%char, "");
    ("034"%char, "'");
    ("<"%char, "(");
    (">"%char, ")");
    ("|"%char, "-") ].

Definition normalize_jd_name (name : string) : string :=
  foldl (λ name '(char, replacement), replace_char char replacement name)
        name JD_CHAR_REPLACEMENTS.

(** A package as [query_packages] reports it. *)
Record package := {
  pkg_uuid : Z;
  pkg_name : string;
  pkg_status : string;
  pkg_bytesLoaded : Z;
  pkg_bytesTotal : Z;
  pkg_speed : Z;
  pkg_eta : Z;
  pkg_finished : bool;
  pkg_running : bool;
  pkg_saveTo : string;
}.

(** The status dict of [_package_to_status]. *)
Record pkg_status_dict := {
  st_uuid : string;
  st_name : string;
  st_status : string;
  st_bytes_loaded : Z;
  st_bytes_total : Z;
  st_speed : Z;
  st_eta : Z;
  st_finished : bool;
  st_running : bool;
  st_save_to : string;
}.

Definition _package_to_status (pkg : package) : pkg_status_dict :=
  {| st_uuid := str_of_int (pkg_uuid pkg);
     st_name := pkg_name pkg;
     st_status := pkg_status pkg;
     st_bytes_loaded := pkg_bytesLoaded pkg;
     st_bytes_total := pkg_bytesTotal pkg;
     st_speed := pkg_speed pkg;
     st_eta := pkg_eta pkg;
     st_finished := pkg_finished pkg;
     st_running := pkg_running pkg;
     st_save_to := pkg_saveTo pkg |}.

(** The agent is an external collaborator.  Its state holds what it
    will answer to the coming requests, and the requests made so far.
    A request that fails (no connection, an exception of the binding)
    is answered as the client turns it: no identifier, no package, no
    file. *)
Inductive call :=
| AddLinks (links : list string) (package_name output_folder : string)
| QueryPackages
| QueryLinks (package_uuid : string).

Record agent := {
  add_answers : list (option string);
  package_answers : list (list package);
  file_answers : list (list string);
  calls : list call;
}.

Definition M (A : Type) : Type := agent → A * agent.

Global Instance agent_ret : MRet M := λ A a ag, (a, ag).

Global Instance agent_bind : MBind M :=
  λ A B k m ag, let '(a, ag') := m ag in k a ag'.

Definition add_links (links : list string) (package_name output_folder : string)
  : M (option string) :=
  λ ag,
    (default None (head (add_answers ag)),
     {| add_answers := tail (add_answers ag);
        package_answers := package_answers ag;
        file_answers := file_answers ag;
        calls := calls ag ++ [AddLinks links package_name output_folder] |}).

Definition get_packages : M (list package) :=
  λ ag,
    (default [] (head (package_answers ag)),
     {| add_answers := add_answers ag;
        package_answers := tail (package_answers ag);
        file_answers := file_answers ag;
        calls := calls ag ++ [QueryPackages] |}).

(** The names of the files of a package. *)
Definition get_package_files (package_uuid : string) : M (list string) :=
  λ ag,
    (default [] (head (file_answers ag)),
     {| add_answers := add_answers ag;
        package_answers := package_answers ag;
        file_answers := tail (file_answers ag);
        calls := calls ag ++ [QueryLinks package_uuid] |}).

(** The loop of [get_package_status] over the packages. *)
Fixpoint find_package (uuid normalized_search_name : option string)
    (packages : list package) : option pkg_status_dict :=
  match packages with
  | [] => None
  | pkg :: rest =>
      if match uuid with
         | Some u => truthy u && String.eqb (str_of_int (pkg_uuid pkg)) u
         | None => false
         end
      then Some (_package_to_status pkg)
      else if match normalized_search_name with
              | Some n => truthy n && String.eqb (pkg_name pkg) n
              | None => false
              end
      then Some (_package_to_status pkg)
      else find_package uuid normalized_search_name rest
  end.

Definition get_package_status (uuid name : option string)
  : M (option pkg_status_dict) :=
  packages ← get_packages;
  let normalized_search_name :=
    match name with
    | Some n => if truthy n then Some (normalize_jd_name n) else None
    | None => None
    end in
  mret (find_package uuid normalized_search_name packages).

End JDownloader.

(** ** app/models/download.py and app/services/downloads.py *)

Module Downloads.
Import PyStr JDownloader.

Inductive DownloadStatus :=
| QUEUED | DOWNLOADING | PAUSED | COMPLETED | FAILED | EXTRACTING.

Global Instance DownloadStatus_eq_dec : EqDecision DownloadStatus.
Proof. solve_decision. Defined.

(** [progress] is a float in the source: the exact ratio here. *)
Record Download := {
  id : string;
  nzo_id : string;
  title : string;
  category : string;
  source_url : string;
  download_links : list string;
  jd_uuid : option string;
  jd_package_name : option string;
  status : DownloadStatus;
  progress : QArith_base.Q;
  size_total : Z;
  size_downloaded : Z;
  speed : Z;
  eta : Z;
  output_path : option string;
  created_at : Z;
  completed_at : option Z;
  error_message : option string;
}.

Definition set_jd_uuid (v : option string) (d : Download) : Download :=
  {| id := id d; nzo_id := nzo_id d; title := title d;
     category := category d; source_url := source_url d;
     download_links := download_links d; jd_uuid := v;
     jd_package_name := jd_package_name d; status := status d;
     progress := progress d; size_total := size_total d;
     size_downloaded := size_downloaded d; speed := speed d; eta := eta d;
     output_path := output_path d; created_at := created_at d;
     completed_at := completed_at d; error_message := error_message d |}.

Definition set_status (v : DownloadStatus) (d : Download) : Download :=
  {| id := id d; nzo_id := nzo_id d; title := title d;
     category := category d; source_url := source_url d;
     download_links := download_links d; jd_uuid := jd_uuid d;
     jd_package_name := jd_package_name d; status := v;
     progress := progress d; size_total := size_total d;
     size_downloaded := size_downloaded d; speed := speed d; eta := eta d;
     output_path := output_path d; created_at := created_at d;
     completed_at := completed_at d; error_message := error_message d |}.

Definition set_progress (v : QArith_base.Q) (d : Download) : Download :=
  {| id := id d; nzo_id := nzo_id d; title := title d;
     category := category d; source_url := source_url d;
     download_links := download_links d; jd_uuid := jd_uuid d;
     jd_package_name := jd_package_name d; status := status d;
     progress := v; size_total := size_total d;
     size_downloaded := size_downloaded d; speed := speed d; eta := eta d;
     output_path := output_path d; created_at := created_at d;
     completed_at := completed_at d; error_message := error_message d |}.

Definition set_size_total (v : Z) (d : Download) : Download :=
  {| id := id d; nzo_id := nzo_id d; title := title d;
     category := category d; source_url := source_url d;
     download_links := download_links d; jd_uuid := jd_uuid d;
     jd_package_name := jd_package_name d; status := status d;
     progress := progress d; size_total := v;
     size_downloaded := size_downloaded d; speed := speed d; eta := eta d;
     output_path := output_path d; created_at := created_at d;
     completed_at := completed_at d; error_message := error_message d |}.

Definition set_size_downloaded (v : Z) (d : Download) : Download :=
  {| id := id d; nzo_id := nzo_id d; title := title d;
     category := category d; source_url := source_url d;
     download_links := download_links d; jd_uuid := jd_uuid d;
     jd_package_name := jd_package_name d; status := status d;
     progress := progress d; size_total := size_total d;
     size_downloaded := v; speed := speed d; eta := eta d;
     output_path := output_path d; created_at := created_at d;
     completed_at := completed_at d; error_message := error_message d |}.

Definition set_speed (v : Z) (d : Download) : Download :=
  {| id := id d; nzo_id := nzo_id d; title := title d;
     category := category d; source_url := source_url d;
     download_links := download_links d; jd_uuid := jd_uuid d;
     jd_package_name := jd_package_name d; status := status d;
     progress := progress d; size_total := size_total d;
     size_downloaded := size_downloaded d; speed := v; eta := eta d;
     output_path := output_path d; created_at := created_at d;
     completed_at := completed_at d; error_message := error_message d |}.

Definition set_eta (v : Z) (d : Download) : Download :=
  {| id := id d; nzo_id := nzo_id d; title := title d;
     category := category d; source_url := source_url d;
     download_links := download_links d; jd_uuid := jd_uuid d;
     jd_package_name := jd_package_name d; status := status d;
     progress := progress d; size_total := size_total d;
     size_downloaded := size_downloaded d; speed := speed d; eta := v;
     output_path := output_path d; created_at := created_at d;
     completed_at := completed_at d; error_message := error_message d |}.

Definition set_output_path (v : option string) (d : Download) : Download :=
  {| id := id d; nzo_id := nzo_id d; title := title d;
     category := category d; source_url := source_url d;
     download_links := download_links d; jd_uuid := jd_uuid d;
     jd_package_name := jd_package_name d; status := status d;
     progress := progress d; size_total := size_total d;
     size_downloaded := size_downloaded d; speed := speed d; eta := eta d;
     output_path := v; created_at := created_at d;
     completed_at := completed_at d; error_message := error_message d |}.

Definition set_completed_at (v : option Z) (d : Download) : Download :=
  {| id := id d; nzo_id := nzo_id d; title := title d;
     category := category d; source_url := source_url d;
     download_links := download_links d; jd_uuid := jd_uuid d;
     jd_package_name := jd_package_name d; status := status d;
     progress := progress d; size_total := size_total d;
     size_downloaded := size_downloaded d; speed := speed d; eta := eta d;
     output_path := output_path d; created_at := created_at d;
     completed_at := v; error_message := error_message d |}.

Definition set_error_message (v : option string) (d : Download) : Download :=
  {| id := id d; nzo_id := nzo_id d; title := title d;
     category := category d; source_url := source_url d;
     download_links := download_links d; jd_uuid := jd_uuid d;
     jd_package_name := jd_package_name d; status := status d;
     progress := progress d; size_total := size_total d;
     size_downloaded := size_downloaded d; speed := speed d; eta := eta d;
     output_path := output_path d; created_at := created_at d;
     completed_at := completed_at d; error_message := v |}.

(** The part of the file system [cleanup_stale_downloads] looks at:
    a path that exists is a file or a directory with its entries. *)
Inductive fs_node :=
| FsFile
| FsDir (entries : list string).

Definition one_day : Z := 24 * 3600 * 1000000.

Definition visible (entries : list string) : list string :=
  filter (λ f, startswith "." f = false) entries.

(** The body of the loop of [cleanup_stale_downloads]: [should_remove]. *)
Definition should_remove (now : Z) (fs : gmap string fs_node)
    (dl : Download) : bool :=
  match status dl with
  | COMPLETED =>
      match output_path dl with
      | Some path =>
          if truthy path then
            match fs !! path with
            | None => true
            | Some (FsDir entries) => (length (visible entries) =? 0)%nat
            | Some FsFile => false
            end
          else false
      | None => false
      end
  | FAILED => one_day <? now - created_at dl
  | _ => false
  end.

Definition stale_ids (now : Z) (fs : gmap string fs_node)
    (downloads : gmap string Download) : list string :=
  (filter (λ kv, should_remove now fs kv.2 = true) (map_to_list downloads)).*1.

(** The store after the pass and the number of entries removed. *)
Definition cleanup_stale_downloads (now : Z) (fs : gmap string fs_node)
    (downloads : gmap string Download) : gmap string Download * nat :=
  let to_remove := stale_ids now fs downloads in
  (foldl (λ m dl_id, delete dl_id m) downloads to_remove, length to_remove).

Definition category_filter (category : option string) : option string :=
  match category with
  | Some c => if truthy c then Some c else None
  | None => None
  end.

Definition get_downloads_by_category (category : option string)
    (downloads : gmap string Download) : list Download :=
  let values := (map_to_list downloads).*2 in
  match category_filter category with
  | Some c => filter (λ dl, Downloads.category dl = c) values
  | None => values
  end.

Definition active_statuses : list DownloadStatus :=
  [QUEUED; DOWNLOADING; PAUSED; EXTRACTING].

Definition completed_statuses : list DownloadStatus :=
  [COMPLETED; FAILED].

Definition get_active_downloads (category : option string)
    (downloads : gmap string Download) : list Download :=
  filter (λ dl, status dl ∈ active_statuses)
         (get_downloads_by_category category downloads).

Definition get_completed_downloads (category : option string)
    (downloads : gmap string Download) : list Download :=
  filter (λ dl, status dl ∈ completed_statuses)
         (get_downloads_by_category category downloads).

(** [start_download]: the result and the download as it leaves it.
    [settings_output_path] is [settings.output_path]. *)
Definition start_download (settings_output_path : string)
    (download : Download) : M (bool * Download) :=
  match download_links download with
  | [] =>
      mret (false,
            set_error_message (Some "Aucun lien de téléchargement")
              (set_status FAILED download))
  | links =>
      let base_folder :=
        settings_output_path +:+ "/" +:+ category download in
      let output_folder := base_folder +:+ "/" +:+ title download in
      uuid ← add_links links (title download) output_folder;
      if opt_truthy uuid then
        mret (true,
              set_output_path (Some output_folder)
                (set_status DOWNLOADING (set_jd_uuid uuid download)))
      else
        mret (false,
              set_error_message (Some "Échec ajout à JDownloader")
                (set_status FAILED download))
  end.

(** [(size_downloaded / size_total) * 100] *)
Definition percent (size_downloaded size_total : Z) : QArith_base.Q :=
  QArith_base.Qmult
    (QArith_base.Qmake size_downloaded (Z.to_pos size_total))
    (QArith_base.Qmake 100 1).

Definition full : QArith_base.Q := QArith_base.Qmake 100 1.

(** The two lookups of [update_progress]: the status found and the
    download with its identifier refreshed by a hit on the name. *)
Definition lookup_status (download : Download)
  : M (option pkg_status_dict * Download) :=
  status ← (if opt_truthy (jd_uuid download)
            then get_package_status (jd_uuid download) None
            else mret None);
  match status with
  | None =>
      if opt_truthy (jd_package_name download) then
        status ← get_package_status None (jd_package_name download);
        match status with
        | Some st => mret (Some st, set_jd_uuid (Some (st_uuid st)) download)
        | None => mret (None, download)
        end
      else mret (None, download)
  | Some st => mret (Some st, download)
  end.

(** The status a package gives a download. *)
Definition apply_status (now : Z) (st : pkg_status_dict)
    (download : Download) : M Download :=
  let download := set_size_total (st_bytes_total st) download in
  let download := set_size_downloaded (st_bytes_loaded st) download in
  let download := set_speed (st_speed st) download in
  let download := set_eta (if 0 <? st_eta st then st_eta st else 0) download in
  let save_to := st_save_to st in
  let download :=
    if truthy save_to then set_output_path (Some save_to) download
    else download in
  let download :=
    if 0 <? size_total download
    then set_progress (percent (size_downloaded download) (size_total download))
                      download
    else download in
  if st_finished st then
    let download := set_status COMPLETED download in
    let download := set_completed_at (Some now) download in
    let download := set_progress full download in
    if opt_truthy (jd_uuid download) && truthy save_to then
      files ← get_package_files (default "" (jd_uuid download));
      match files with
      | filename :: _ =>
          if truthy filename
          then mret (set_output_path (Some save_to) download)
          else mret download
      | [] => mret download
      end
    else mret download
  else if st_running st then
    mret (set_status DOWNLOADING download)
  else
    let jd_status := lower (st_status st) in
    if contains "extract" jd_status then
      mret (set_status EXTRACTING download)
    else if contains "queue" jd_status || contains "wait" jd_status then
      mret (set_status QUEUED download)
    else mret download.

Definition update_progress (now : Z) (download : Download) : M Download :=
  '(status, download) ← lookup_status download;
  match status with
  | Some st => apply_status now st download
  | None => mret download
  end.

End Downloads.

(** ** app/services/darkiworld.py *)

Module DarkiWorld.
Import PyStr.

Record Settings := {
  darkiworld_base_url : string;
  darkiworld_remember_cookie_name : string;
  darkiworld_remember_cookie_value : string;
}.

(** What an HTTP request gives: an exception (transport failure), or a
    status code with a body; the body is [None] when decoding it or
    reading its structure raises. *)
Inductive response (B : Type) :=
| Raises
| Resp (status_code : Z) (body : option B).
Arguments Raises {B}.
Arguments Resp {B} _ _.

(** The answer to the authentication request: the cookies it sets and
    the metadata tables of its [bootstrapData], when they decode. *)
Record Metadata := {
  meta_qualities : list (Z * string);
  meta_hosts : list (Z * string);
}.

Record auth_page := {
  auth_cookies : list (string * string);
  auth_metadata : option Metadata;
}.

Record client := {
  _cookies : gmap string string;
  _xsrf_token : option string;
  _session_valid_until : option Z;
  _qualities : gmap Z string;
  _hosts : gmap Z string;
}.

(** The client [__init__] builds. *)
Definition new_client : client :=
  {| _cookies := ∅; _xsrf_token := None; _session_valid_until := None;
     _qualities := ∅; _hosts := ∅ |}.

Definition one_hour : Z := 3600 * 1000000.

Definition store_cookie (c : client) (kv : string * string) : client :=
  {| _cookies := <[kv.1 := kv.2]> (_cookies c);
     _xsrf_token :=
       if contains "xsrf" (lower kv.1) then Some kv.2 else _xsrf_token c;
     _session_valid_until := _session_valid_until c;
     _qualities := _qualities c;
     _hosts := _hosts c |}.

Definition _extract_metadata (c : client) (m : option Metadata) : client :=
  match m with
  | None => c
  | Some m =>
      {| _cookies := _cookies c;
         _xsrf_token := _xsrf_token c;
         _session_valid_until := _session_valid_until c;
         _qualities :=
           foldl (λ t kv, <[kv.1 := kv.2]> t) (_qualities c) (meta_qualities m);
         _hosts :=
           foldl (λ t kv, <[kv.1 := kv.2]> t) (_hosts c) (meta_hosts m) |}
  end.

Definition with_cookies (c : client) (cookies : gmap string string) : client :=
  {| _cookies := cookies; _xsrf_token := _xsrf_token c;
     _session_valid_until := _session_valid_until c;
     _qualities := _qualities c; _hosts := _hosts c |}.

Definition with_session (c : client) (t : Z) : client :=
  {| _cookies := _cookies c; _xsrf_token := _xsrf_token c;
     _session_valid_until := Some t;
     _qualities := _qualities c; _hosts := _hosts c |}.

Definition session_valid (now : Z) (c : client) : bool :=
  match _session_valid_until c with
  | Some t => now <? t
  | None => false
  end.

(** [ensure_authenticated].  The token of the XSRF cookie is kept as
    sent (URL-decoding is the identity on the model's tokens). *)
Definition ensure_authenticated (settings : Settings) (now : Z)
    (answer : response auth_page) (c : client) : bool * client :=
  if session_valid now c then (true, c)
  else
    let cookie_name := darkiworld_remember_cookie_name settings in
    let cookie_value := darkiworld_remember_cookie_value settings in
    if negb (truthy cookie_name) || negb (truthy cookie_value) then (false, c)
    else
      let c := with_cookies c {[ cookie_name := cookie_value ]} in
      match answer with
      | Raises => (false, c)
      | Resp status_code None => (false, c)
      | Resp status_code (Some page) =>
          let c := foldl store_cookie c (auth_cookies page) in
          let c := _extract_metadata c (auth_metadata page) in
          if (status_code =? 200)
             && bool_decide (is_Some (_cookies c !! "darkiworld_session"))
          then (true, with_session c (now + one_hour))
          else (false, c)
      end.

(** *** search *)

Record search_item := {
  item_id : option Z;
  item_name : string;
  item_type : string;
  item_year : option Z;
  item_have_link : Z;
}.

Record Title := {
  t_id : option Z;
  t_title : string;
  t_year : option Z;
  t_type : string;
  t_have_link : Z;
}.

Definition series_types : list string := ["series"; "tv"; "animes"].

Definition normalized_type (item_type : string) : string :=
  if String.eqb item_type "movie" then "movie"
  else if mem item_type series_types then "series"
  else if String.eqb item_type "ebook" then "ebook"
  else item_type.

(** The filter by media type.  An item that the three tests on
    [MOVIE], [TV] and [MUSIC] do not skip reaches the test on
    [MediaType.BOOK], a member the enumeration does not have: the
    lookup raises [AttributeError]. *)
Inductive filtered := Skip | Keep | AttributeError.

Definition filter_item (media_type : option MediaType) (item_type : string)
  : filtered :=
  match media_type with
  | None => Keep
  | Some mt =>
      if bool_decide (mt = MOVIE) && negb (String.eqb item_type "movie")
      then Skip
      else if bool_decide (mt = TV) && negb (mem item_type series_types)
      then Skip
      else if bool_decide (mt = MUSIC) && negb (String.eqb item_type "music")
      then Skip
      else AttributeError
  end.

(** The loop over the results; [None] when it raises. *)
Fixpoint search_results (media_type : option MediaType)
    (api_results : list search_item) : option (list Title) :=
  match api_results with
  | [] => Some []
  | item :: rest =>
      match filter_item media_type (item_type item) with
      | Skip => search_results media_type rest
      | AttributeError => None
      | Keep =>
          cons {| t_id := item_id item;
                  t_title := item_name item;
                  t_year := item_year item;
                  t_type := normalized_type (item_type item);
                  t_have_link := item_have_link item |}
            <$> search_results media_type rest
      end
  end.

Definition search (settings : Settings) (now : Z)
    (auth_answer : response auth_page)
    (answer : response (list search_item))
    (media_type : option MediaType) (c : client) : list Title * client :=
  let '(ok, c) := ensure_authenticated settings now auth_answer c in
  if negb ok then ([], c)
  else
    match answer with
    | Raises => ([], c)
    | Resp status_code body =>
        if negb (status_code =? 200) then ([], c)
        else match body with
             | None => ([], c)
             | Some api_results =>
                 (default [] (search_results media_type api_results), c)
             end
    end.

(** *** Link listing *)

(** A field of a raw record that the parser reads as a nested object:
    absent, [null], or an object with its (optional) name. *)
Inductive nested :=
| Absent
| Null
| Object (name : option string).

Record raw_link := {
  raw_id : option Z;
  raw_qualite : option Z;
  raw_qual : nested;
  raw_id_host : option Z;
  raw_host : nested;
  raw_langues_compact : list string;
  raw_subs_compact : list string;
  raw_taille : Z;
  raw_nfo : list string;
  raw_saison : option Z;
  raw_episode : option Z;
}.

Record title_info := {
  ti_name : string;
  ti_year : option Z;
}.

Definition no_title_info : title_info := {| ti_name := ""; ti_year := None |}.

(** [link.get(field, {}).get(name, fallback)]; [None] when it raises. *)
Definition nested_name (f : nested) (fallback : string) : option string :=
  match f with
  | Absent => Some fallback
  | Null => None
  | Object name => Some (default fallback name)
  end.

Definition nfo_size_pattern : list Re.atom :=
  [ Re.AClass Re.is_digit; Re.AStar Re.is_digit;
    Re.AOpt (λ c, Ascii.eqb c "," || Ascii.eqb c ".");
    Re.AStar Re.is_digit;
    Re.AStar Re.is_space;
    Re.AAlt ["Gio"; "Mio"; "GB"; "MB"] ].

(** The size of a record: [taille], or the size its first note states. *)
Definition parse_size (taille : Z) (nfo_data : list string) : option Z :=
  match nfo_data with
  | [] => Some taille
  | nfo_text :: _ =>
      match Re.search nfo_size_pattern nfo_text with
      | None => Some taille
      | Some caps =>
          match Newznab.parse_float
                  (replace_char "," "." (Re.group caps 0 4)) with
          | None => None
          | Some size_value =>
              let unit := lower (Re.group caps 5 1) in
              if mem unit ["gio"; "gb"] then Some (bytes_of_gb size_value)
              else if mem unit ["mio"; "mb"] then Some (bytes_of_mb size_value)
              else Some taille
          end
      end
  end.

(** [_parse_link]; [None] when the body raises. *)
Definition _parse_link (c : client) (link : raw_link) (title_id : Z)
    (info : title_info) : option Link :=
  let known (t : gmap Z string) (k : option Z) : string :=
    default "Unknown" (k ≫= λ k, t !! k) in
  quality_name ← nested_name (raw_qual link)
                   (known (_qualities c) (raw_qualite link));
  host_name ← nested_name (raw_host link)
                (known (_hosts c) (raw_id_host link));
  size ← parse_size (raw_taille link) (raw_nfo link);
  Some {| link_id := raw_id link;
          link_title_id := title_id;
          link_title := ti_name info;
          link_year := ti_year info;
          link_quality := quality_name;
          link_host := host_name;
          link_audio_languages := raw_langues_compact link;
          link_subtitles := raw_subs_compact link;
          link_size := size;
          link_season := raw_saison link;
          link_episode := raw_episode link;
          link_nfo := raw_nfo link;
          link_download_url := None |}.

Record links_page := {
  page_status : string;
  page_title : title_info;
  page_data : list raw_link;
}.

Definition per_page_cap : nat := 42.
Definition max_pages : nat := 50.

(** How the loop of [get_title_links] ends: by one of its [break]s with
    the links accumulated, or by an exception that the enclosing
    handler turns into the empty list.  [requests] counts the pages
    asked for. *)
Inductive loop_end :=
| Break (all_links : list Link) (requests : nat)
| Raised (requests : nat).

(** The [while True] loop, entered with [page], the links accumulated so
    far and the count of requests made.  [pages n] is the answer of the
    upstream to the request for page [n].  [None]: the fuel is spent. *)
Fixpoint links_loop (fuel : nat) (c : client) (title_id : Z)
    (pages : nat → response links_page)
    (page : nat) (info : title_info) (all_links : list Link)
  : option loop_end :=
  match fuel with
  | O => None
  | S fuel =>
      match pages page with
      | Raises => Some (Raised page)
      | Resp status_code body =>
          if negb (status_code =? 200) then Some (Break all_links page)
          else
            match body with
            | None => Some (Raised page)
            | Some data =>
                if negb (String.eqb (page_status data) "success")
                then Some (Break all_links page)
                else
                  let info := if (page =? 1)%nat then page_title data else info in
                  let links_data := page_data data in
                  match links_data with
                  | [] => Some (Break all_links page)
                  | _ =>
                      let all_links :=
                        all_links ++
                        omap (λ link, _parse_link c link title_id info) links_data in
                      if (length links_data <? per_page_cap)%nat
                      then Some (Break all_links page)
                      else
                        let page := S page in
                        if (max_pages <? page)%nat
                        then Some (Break all_links (page - 1))
                        else links_loop fuel c title_id pages page info all_links
                  end
            end
      end
  end.

Definition loop_result (e : loop_end) : list Link :=
  match e with
  | Break all_links _ => all_links
  | Raised _ => []
  end.

(** [get_title_links]; [None]: the fuel given to the loop is spent. *)
Definition get_title_links (fuel : nat) (settings : Settings) (now : Z)
    (auth_answer : response auth_page)
    (pages : nat → response links_page)
    (title_id : Z) (c : client) : option (list Link) * client :=
  let '(ok, c) := ensure_authenticated settings now auth_answer c in
  if negb ok then (Some [], c)
  else (loop_result <$> links_loop fuel c title_id pages 1 no_title_info [], c).

(** What a response is to the loop: an exception, a refusal (a status
    code other than 200 or a status other than "success"), an empty
    page, a page under the cap, a full page. *)
Inductive page_kind :=
| KRaises
| KRefused
| KEmpty
| KShort (data : links_page)
| KFull (data : links_page).

Definition classify (r : response links_page) : page_kind :=
  match r with
  | Raises => KRaises
  | Resp status_code body =>
      if negb (status_code =? 200) then KRefused
      else match body with
           | None => KRaises
           | Some data =>
               if negb (String.eqb (page_status data) "success") then KRefused
               else match page_data data with
                    | [] => KEmpty
                    | _ => if (length (page_data data) <? per_page_cap)%nat
                           then KShort data else KFull data
                    end
           end
  end.

Definition is_full (r : response links_page) : bool :=
  match classify r with KFull _ => true | _ => false end.

(** The page at which a listing that starts at [page] stops, [more]
    pages being allowed after it. *)
Fixpoint stop_page (pages : nat → response links_page) (more page : nat) : nat :=
  match more with
  | O => page
  | S more =>
      if is_full (pages page) then stop_page pages more (S page) else page
  end.

(** The title information in force once [page] is read. *)
Definition info_at (page : nat) (data : links_page) (info : title_info)
  : title_info :=
  if (page =? 1)%nat then page_title data else info.

(** The title information of a listing is that of its first page. *)
Definition listing_info (pages : nat → response links_page) : title_info :=
  match pages 1%nat with
  | Resp _ (Some data) => page_title data
  | _ => no_title_info
  end.

(** The links page [k] contributes: its records that parse. *)
Definition page_links (c : client) (title_id : Z)
    (pages : nat → response links_page) (k : nat) : list Link :=
  match classify (pages k) with
  | KShort data | KFull data =>
      omap (λ link, _parse_link c link title_id (listing_info pages))
           (page_data data)
  | _ => []
  end.

Definition end_at (pages : nat → response links_page) (n : nat)
    (all_links : list Link) : loop_end :=
  match classify (pages n) with
  | KRaises => Raised n
  | _ => Break all_links n
  end.

(** *** Verification and download URL of one link *)

Record lien := {
  lien_deleted_at : option string;
  lien_active : option Z;
  lien_directDL : option string;
  lien_lien : option string;
}.

Definition or_else (a b : option string) : option string :=
  match a with
  | Some s => if truthy s then a else b
  | None => b
  end.

Definition verify_link_availability (settings : Settings) (now : Z)
    (auth_answer : response auth_page) (answer : response lien)
    (c : client) : (bool * option lien) * client :=
  let '(ok, c) := ensure_authenticated settings now auth_answer c in
  if negb ok then ((false, None), c)
  else
    match answer with
    | Raises => ((false, None), c)
    | Resp status_code body =>
        if negb (status_code =? 200) then ((false, None), c)
        else match body with
             | None => ((false, None), c)
             | Some lien_obj =>
                 if bool_decide (is_Some (lien_deleted_at lien_obj))
                 then ((false, None), c)
                 else if negb (bool_decide (lien_active lien_obj = Some 1))
                 then ((false, None), c)
                 else if negb (opt_truthy (or_else (lien_directDL lien_obj)
                                              (lien_lien lien_obj)))
                 then ((false, None), c)
                 else ((true, Some lien_obj), c)
             end
    end.

Definition fix_domain (download_url : string) : string :=
  if contains "send.cm/" download_url
  then replace "send.cm/" "send.now/" download_url
  else download_url.

Definition get_download_url (settings : Settings) (now : Z)
    (auth_answer : response auth_page) (answer : response lien)
    (c : client) : option string * client :=
  let '(ok, c) := ensure_authenticated settings now auth_answer c in
  if negb ok then (None, c)
  else
    match answer with
    | Raises => (None, c)
    | Resp status_code body =>
        if negb (status_code =? 200) then (None, c)
        else match body with
             | None => (None, c)
             | Some lien_obj =>
                 let download_url :=
                   or_else (lien_directDL lien_obj) (lien_lien lien_obj) in
                 if opt_truthy download_url
                 then (fix_domain <$> download_url, c)
                 else (None, c)
             end
    end.

(** The states a client goes through: every operation changes it by
    [ensure_authenticated] only. *)
Inductive reachable (settings : Settings) : client → Prop :=
| reach_new : reachable settings new_client
| reach_auth c now answer :
    reachable settings c →
    reachable settings (ensure_authenticated settings now answer c).2.

Definition no_credentials (settings : Settings) : Prop :=
  truthy (darkiworld_remember_cookie_name settings) = false
  ∨ truthy (darkiworld_remember_cookie_value settings) = false.

(** *** Diversification by episode (in [get_title_links_verified]) *)

Definition quality_score (q : string) : Z :=
  let q_upper := upper q in
  let has x := contains x q_upper in
  if has "ULTRA HD" && negb (has "LIGHT") then 0
  else if has "ULTRA" || has "UHD" || has "2160" || has "4K" then 1
  else if has "REMUX" then 2
  else if has "BLURAY" && has "1080" then 3
  else if has "1080" then 4
  else if has "720" then 5
  else 6.

Definition host_rank (host : string) : Z :=
  if contains "1fichier" (lower host) then 0
  else if contains "send" (lower host) then 1
  else 2.

(** The key of the sort: a tuple, compared lexicographically. *)
Definition sort_key (x : Link) : Z * Z :=
  (quality_score (link_quality x), host_rank (link_host x)).

Definition key_le (a b : Z * Z) : bool :=
  (a.1 <? b.1) || ((a.1 =? b.1) && (a.2 <=? b.2)).

(** [sorted(l, key=...)]: the sort is stable. *)
Section sorted.
Context {A : Type} (key : A → Z * Z).

Fixpoint insert_sorted (x : A) (l : list A) : list A :=
  match l with
  | [] => [x]
  | y :: l' =>
      if key_le (key x) (key y) then x :: l
      else y :: insert_sorted x l'
  end.

Fixpoint sorted (l : list A) : list A :=
  match l with
  | [] => []
  | x :: l' => insert_sorted x (sorted l')
  end.
End sorted.

(** [None] is normalised to 0, the season pack. *)
Definition episode_of (link : Link) : Z := default 0 (link_episode link).

(** [links_by_episode], a [defaultdict(list)] *)
Definition bucket (m : gmap Z (list Link)) (ep : Z) : list Link :=
  default [] (m !! ep).

Definition group_by_episode (all_links : list Link) : gmap Z (list Link) :=
  foldl (λ m link, <[episode_of link := bucket m (episode_of link) ++ [link]]> m)
        ∅ all_links.

(** [sorted(links_by_episode.keys())] *)
Definition episodes (all_links : list Link) : list Z :=
  merge_sort Z.le (map_to_list (group_by_episode all_links)).*1.

(** The first pass: the best link of each episode. *)
Definition representatives (all_links : list Link) : list Link :=
  omap (λ ep, head (sorted sort_key (bucket (group_by_episode all_links) ep)))
       (episodes all_links).

Definition diversify (all_links : list Link) : list Link :=
  let diversified_links := representatives all_links in
  let seen_ids : gset (option Z) :=
    list_to_set (link_id <$> diversified_links) in
  diversified_links ++ filter (λ link, link_id link ∉ seen_ids) all_links.

Definition links_to_verify (max_links : nat) (all_links : list Link)
  : list Link :=
  take max_links (diversify all_links).



End DarkiWorld.


(** * Scenarios and specification-side definitions *)

Module Scenario.
Import PyStr Newznab.





(** *** Agent and downloads *)
Import JDownloader Downloads.


Definition by_name (name : string) (packages : list package) : option package :=
  List.find (λ pkg, String.eqb (pkg_name pkg) name) packages.

(** The agent after [n] package queries. *)
Fixpoint queried (n : nat) (ag : agent) : agent :=
  match n with
  | O => ag
  | S n => queried n (get_packages ag).2
  end.

(** What the agent answers to its next package query. *)
Definition next_packages (ag : agent) : list package :=
  default [] (head (package_answers ag)).

Definition a_download : Download :=
  {| id := "d1"; nzo_id := "SABnzbd_nzo_Test_Movie_120000";
     title := "Test Movie (2024) Bluray-2160p"; category := "radarr";
     source_url := "darkiworld://link/1";
     download_links := ["https://1fichier.com/?abc"];
     jd_uuid := Some "17"; jd_package_name := Some "[RADARR] Test: Movie?";
     status := DOWNLOADING; progress := QArith_base.Qmake 0 1;
     size_total := 0; size_downloaded := 0; speed := 0; eta := 0;
     output_path := Some "/output/radarr/Test Movie (2024) Bluray-2160p";
     created_at := 0; completed_at := None; error_message := None |}.

Definition a_package (uuid : Z) (name : string) (finished running : bool)
    (status save_to : string) : package :=
  {| pkg_uuid := uuid; pkg_name := name; pkg_status := status;
     pkg_bytesLoaded := 50; pkg_bytesTotal := 200; pkg_speed := 10;
     pkg_eta := 15; pkg_finished := finished; pkg_running := running;
     pkg_saveTo := save_to |}.

Definition an_agent (adds : list (option string))
    (packages : list (list package)) : agent :=
  {| add_answers := adds; package_answers := packages;
     file_answers := []; calls := [] |}.

(** Staleness as the specification words it: a completed download
    whose output path no longer exists or is an empty directory, a
    failed download older than the threshold. *)
Definition spec_should_remove (now : Z) (fs : gmap string fs_node)
    (dl : Download) : bool :=
  match status dl with
  | COMPLETED =>
      match output_path dl with
      | Some path =>
          if truthy path then
            match fs !! path with
            | None => true
            | Some (FsDir entries) => bool_decide (entries = [])
            | Some FsFile => false
            end
          else false
      | None => false
      end
  | FAILED => one_day <? now - created_at dl
  | _ => false
  end.

Definition unconfigured : DarkiWorld.Settings :=
  {| DarkiWorld.darkiworld_base_url := "https://darkiworld.com";
     DarkiWorld.darkiworld_remember_cookie_name := "";
     DarkiWorld.darkiworld_remember_cookie_value := "" |}.

Definition a_raw_link (i : Z) : DarkiWorld.raw_link :=
  {| DarkiWorld.raw_id := Some i; DarkiWorld.raw_qualite := Some 3;
     DarkiWorld.raw_qual := DarkiWorld.Object (Some "WEB 1080p");
     DarkiWorld.raw_id_host := Some 1;
     DarkiWorld.raw_host := DarkiWorld.Object (Some "1fichier");
     DarkiWorld.raw_langues_compact := ["French"];
     DarkiWorld.raw_subs_compact := [];
     DarkiWorld.raw_taille := 0; DarkiWorld.raw_nfo := [];
     DarkiWorld.raw_saison := Some 1; DarkiWorld.raw_episode := Some i |}.

(** Two pages: a full one, then a short one with a record that does
    not parse. *)
Definition two_pages (page : nat) : DarkiWorld.response DarkiWorld.links_page :=
  let a_title := {| DarkiWorld.ti_name := "Show"; DarkiWorld.ti_year := Some 2020 |} in
  match page with
  | 1%nat =>
      DarkiWorld.Resp 200
        (Some {| DarkiWorld.page_status := "success";
                 DarkiWorld.page_title := a_title;
                 DarkiWorld.page_data := a_raw_link <$> seqZ 1 42 |})
  | 2%nat =>
      DarkiWorld.Resp 200
        (Some {| DarkiWorld.page_status := "success";
                 DarkiWorld.page_title := a_title;
                 DarkiWorld.page_data :=
                   [ a_raw_link 43;
                     {| DarkiWorld.raw_id := Some 44;
                        DarkiWorld.raw_qualite := None;
                        DarkiWorld.raw_qual := DarkiWorld.Null;
                        DarkiWorld.raw_id_host := None;
                        DarkiWorld.raw_host := DarkiWorld.Absent;
                        DarkiWorld.raw_langues_compact := [];
                        DarkiWorld.raw_subs_compact := [];
                        DarkiWorld.raw_taille := 0; DarkiWorld.raw_nfo := [];
                        DarkiWorld.raw_saison := Some 1;
                        DarkiWorld.raw_episode := Some 44 |} ] |})
  | _ => DarkiWorld.Raises
  end.

Definition a_link (i : Z) (episode : option Z) (quality host : string) : Link :=
  {| link_id := Some i; link_title_id := 7; link_title := "Show";
     link_year := Some 2020; link_quality := quality; link_host := host;
     link_audio_languages := ["French"]; link_subtitles := [];
     link_size := 0; link_season := Some 1; link_episode := episode;
     link_nfo := []; link_download_url := None |}.



Definition imported : Download :=
  set_status COMPLETED
    (set_completed_at (Some 1000000)
       (set_output_path (Some "/output/radarr/Test Movie") a_download)).

Definition a_store : gmap string Download := {[ "d1" := imported ]}.

Definition a_file_system : gmap string fs_node :=
  {[ "/output/radarr/Test Movie" := FsDir [".stfolder"] ]}.

End Scenario.

(** * Further code of the engine *)

(** ** app/models/indexer.py *)

Module Indexer.
Import PyStr.

Inductive ArrType := RADARR | SONARR | LIDARR.

Record IndexerConfig := {
  ic_id : string;
  ic_name : string;
  ic_arr_type : ArrType;
  ic_media_type : MediaType;
  ic_torznab_categories : list Z;
  ic_darkiworld_categories : list string;
  ic_search_type : string;
  ic_supported_params : string;
  ic_output_subfolder : string;
}.

Definition radarr : IndexerConfig :=
  {| ic_id := "radarr"; ic_name := "DDL-Indexarr (Films)";
     ic_arr_type := RADARR; ic_media_type := MOVIE;
     ic_torznab_categories := [2000; 2010; 2020; 2030; 2040; 2045; 2050; 2060];
     ic_darkiworld_categories := ["films"; "films-4k"; "films-animes"];
     ic_search_type := "movie"; ic_supported_params := "q,imdbid,tmdbid";
     ic_output_subfolder := "radarr" |}.

Definition sonarr : IndexerConfig :=
  {| ic_id := "sonarr"; ic_name := "DDL-Indexarr (Séries)";
     ic_arr_type := SONARR; ic_media_type := TV;
     ic_torznab_categories :=
       [5000; 5010; 5020; 5030; 5040; 5045; 5050; 5060; 5070];
     ic_darkiworld_categories := ["series"; "series-4k"; "animes"];
     ic_search_type := "tvsearch";
     ic_supported_params := "q,tvdbid,imdbid,season,ep";
     ic_output_subfolder := "sonarr" |}.

Definition lidarr : IndexerConfig :=
  {| ic_id := "lidarr"; ic_name := "DDL-Indexarr (Musique)";
     ic_arr_type := LIDARR; ic_media_type := MUSIC;
     ic_torznab_categories := [3000; 3010; 3020; 3030; 3040];
     ic_darkiworld_categories := ["musique"];
     ic_search_type := "music"; ic_supported_params := "q,artist,album";
     ic_output_subfolder := "lidarr" |}.

Definition INDEXER_CONFIGS : list (string * IndexerConfig) :=
  [ ("radarr", radarr); ("sonarr", sonarr); ("lidarr", lidarr) ].

Definition get_indexer_config (indexer_id : string) : option IndexerConfig :=
  assoc indexer_id INDEXER_CONFIGS.

Definition type_map : list (string * string) :=
  [ ("movie", "radarr"); ("tvsearch", "sonarr");
    ("music", "lidarr"); ("audio", "lidarr") ].

Definition get_indexer_by_search_type (search_type : string)
    (categories : list Z) : option IndexerConfig :=
  match assoc search_type type_map with
  | Some indexer_id => assoc indexer_id INDEXER_CONFIGS
  | None =>
      if String.eqb search_type "search"
         && bool_decide (categories ≠ [])
      then
        let music_cats :=
          filter (λ c, 3000 ≤ c ∧ c < 4000) categories in
        match music_cats with
        | _ :: _ => assoc "lidarr" INDEXER_CONFIGS
        | [] =>
            let tv_cats :=
              filter (λ c, 5000 ≤ c ∧ c < 6000) categories in
            match tv_cats with
            | _ :: _ => assoc "sonarr" INDEXER_CONFIGS
            | [] => assoc "radarr" INDEXER_CONFIGS
            end
        end
      else assoc "radarr" INDEXER_CONFIGS
  end.

Definition get_all_indexers : list IndexerConfig := INDEXER_CONFIGS.*2.

End Indexer.

(** ** app/api/newznab.py: categories and indexer of a request *)

Module NewznabApi.
Import PyStr Newznab Indexer.

Definition MOVIE_CATEGORIES : list (string * string) :=
  [ ("2000", "Movies"); ("2010", "Movies/Foreign"); ("2020", "Movies/Other");
    ("2030", "Movies/SD"); ("2040", "Movies/HD"); ("2045", "Movies/UHD");
    ("2050", "Movies/BluRay"); ("2060", "Movies/3D") ].

Definition TV_CATEGORIES : list (string * string) :=
  [ ("5000", "TV"); ("5010", "TV/WEB-DL"); ("5020", "TV/Foreign");
    ("5030", "TV/SD"); ("5040", "TV/HD"); ("5045", "TV/UHD");
    ("5070", "TV/Anime") ].

Definition MUSIC_CATEGORIES : list (string * string) :=
  [ ("3000", "Audio"); ("3010", "Audio/MP3"); ("3040", "Audio/Lossless") ].

(** The categories the capabilities document lists for a media kind. *)
Definition caps_categories (media_type : MediaType) : list string :=
  match media_type with
  | MOVIE => MOVIE_CATEGORIES.*1
  | TV => TV_CATEGORIES.*1
  | MUSIC => MUSIC_CATEGORIES.*1
  end.

(** The indexer [newznab_api] serves a request with: that of the search
    type, [radarr] when there is none. *)
Definition request_indexer (t : string) (categories_list : list Z)
  : IndexerConfig :=
  match get_indexer_by_search_type t categories_list with
  | Some indexer => indexer
  | None => default radarr (get_indexer_config "radarr")
  end.

(** The items of a response: one per link, in order. *)
Definition items_of_links (t : string) (categories_list : list Z)
    (links : list Link) : list item :=
  let indexer := request_indexer t categories_list in
  (λ link, item_of_link link (ic_media_type indexer)) <$> links.

End NewznabApi.

(** ** app/services/darkiworld.py: verification pass and link search

    The answers of the upstream are functions of the request; the probes
    of a batch are taken in the order of the batch, and the clock reads
    [now] throughout a call. *)

Module Verifier.
Import PyStr DarkiWorld.

(** What a function of the client gives: a value, the [ValueError] that
    [range] raises for a batch size of zero, or the end of the fuel of
    the listing loop. *)
Inductive result (A : Type) :=
| Ok (a : A)
| ValueError
| NoFuel.
Arguments Ok {A} _.
Arguments ValueError {A}.
Arguments NoFuel {A}.

Definition id_truthy (link_id : option Z) : bool :=
  match link_id with
  | Some n => negb (n =? 0)
  | None => false
  end.

Definition set_download_url (download_url : option string) (link : Link) : Link :=
  {| link_id := link_id link; link_title_id := link_title_id link;
     link_title := link_title link; link_year := link_year link;
     link_quality := link_quality link; link_host := link_host link;
     link_audio_languages := link_audio_languages link;
     link_subtitles := link_subtitles link; link_size := link_size link;
     link_season := link_season link; link_episode := link_episode link;
     link_nfo := link_nfo link; link_download_url := download_url |}.

(** [verify_single] *)
Definition verify_single (settings : Settings) (now : Z)
    (auth_answer : response auth_page) (answers : Z → response lien)
    (link : Link) (c : client) : option Link * client :=
  match link_id link with
  | Some link_id =>
      if link_id =? 0 then (None, c)
      else
        let '((is_available, lien_info), c) :=
          verify_link_availability settings now auth_answer (answers link_id) c in
        match is_available, lien_info with
        | true, Some lien_info =>
            let download_url :=
              or_else (lien_directDL lien_info) (lien_lien lien_info) in
            (Some (set_download_url (fix_domain <$> download_url) link), c)
        | _, _ => (None, c)
        end
  | None => (None, c)
  end.

(** One batch: the links that pass, in the order of the batch. *)
Fixpoint verify_batch (settings : Settings) (now : Z)
    (auth_answer : response auth_page) (answers : Z → response lien)
    (batch : list Link) (c : client) : list Link * client :=
  match batch with
  | [] => ([], c)
  | link :: rest =>
      let '(r, c) := verify_single settings now auth_answer answers link c in
      let '(rs, c) := verify_batch settings now auth_answer answers rest c in
      (match r with Some l => l :: rs | None => rs end, c)
  end.

(** [links[i:i + batch_size] for i in range(0, len(links), batch_size)],
    for a positive [batch_size]; [fuel] bounds the number of batches. *)
Fixpoint batches (fuel batch_size : nat) (links : list Link) : list (list Link) :=
  match fuel with
  | O => []
  | S fuel =>
      match links with
      | [] => []
      | _ => take batch_size links :: batches fuel batch_size (drop batch_size links)
      end
  end.

Fixpoint verify_batches (settings : Settings) (now : Z)
    (auth_answer : response auth_page) (answers : Z → response lien)
    (bs : list (list Link)) (c : client) : list Link * client :=
  match bs with
  | [] => ([], c)
  | batch :: rest =>
      let '(results, c) := verify_batch settings now auth_answer answers batch c in
      let '(more, c) := verify_batches settings now auth_answer answers rest c in
      (results ++ more, c)
  end.

(** [get_title_links_verified], for [max_links] and [batch_size] that
    are not negative. *)
Definition get_title_links_verified (fuel : nat) (settings : Settings) (now : Z)
    (auth_answer : response auth_page) (pages : nat → response links_page)
    (answers : Z → response lien) (title_id : Z)
    (max_links batch_size : nat) (c : client) : result (list Link) * client :=
  let '(all_links, c) :=
    get_title_links fuel settings now auth_answer pages title_id c in
  match all_links with
  | None => (NoFuel, c)
  | Some [] => (Ok [], c)
  | Some all_links =>
      let links_to_verify := links_to_verify max_links all_links in
      match batch_size with
      | O => (ValueError, c)
      | _ =>
          let '(verified_links, c) :=
            verify_batches settings now auth_answer answers
              (batches (length links_to_verify) batch_size links_to_verify) c in
          (Ok verified_links, c)
      end
  end.

(** The episode filter of [search_with_links]. *)
Definition keep_episode (episode : Z) (link : Link) : bool :=
  match link_episode link with
  | None => true
  | Some e => (e =? episode) || (e =? 0)
  end.

(** The links of one title in [search_with_links], each with the title
    that enriches it ([search_title], [search_year], [search_type]). *)
Definition title_links (fuel : nat) (settings : Settings) (now : Z)
    (auth_answer : response auth_page)
    (pages : Z → Z → nat → response links_page)
    (answers : Z → response lien)
    (media_type : option MediaType) (season episode : option Z)
    (verify_links : bool) (max_links_per_title : nat)
    (title : Title) (c : client) : result (list (Link * Title)) * client :=
  if t_have_link title =? 0 then (Ok [], c)
  else if negb (id_truthy (t_id title)) then (Ok [], c)
  else
    let title_id := default 0 (t_id title) in
    let search_season := default 1 season in
    let '(links, c) :=
      if verify_links then
        get_title_links_verified fuel settings now auth_answer
          (pages title_id search_season) answers title_id
          max_links_per_title 5 c
      else
        let '(links, c) :=
          get_title_links fuel settings now auth_answer
            (pages title_id search_season) title_id c in
        (match links with Some l => Ok l | None => NoFuel end, c) in
    match links with
    | Ok links =>
        let links :=
          match episode, media_type with
          | Some episode, Some TV => List.filter (keep_episode episode) links
          | _, _ => links
          end in
        (Ok ((λ link, (link, title)) <$> links), c)
    | ValueError => (ValueError, c)
    | NoFuel => (NoFuel, c)
    end.

Fixpoint all_title_links (fuel : nat) (settings : Settings) (now : Z)
    (auth_answer : response auth_page)
    (pages : Z → Z → nat → response links_page)
    (answers : Z → response lien)
    (media_type : option MediaType) (season episode : option Z)
    (verify_links : bool) (max_links_per_title : nat)
    (titles : list Title) (c : client) : result (list (Link * Title)) * client :=
  match titles with
  | [] => (Ok [], c)
  | title :: rest =>
      let '(links, c) :=
        title_links fuel settings now auth_answer pages answers media_type
          season episode verify_links max_links_per_title title c in
      match links with
      | Ok links =>
          let '(more, c) :=
            all_title_links fuel settings now auth_answer pages answers
              media_type season episode verify_links max_links_per_title rest c in
          (match more with
           | Ok more => Ok (links ++ more)
           | ValueError => ValueError
           | NoFuel => NoFuel
           end, c)
      | ValueError => (ValueError, c)
      | NoFuel => (NoFuel, c)
      end
  end.

(** [search_with_links] *)
Definition search_with_links (fuel : nat) (settings : Settings) (now : Z)
    (auth_answer : response auth_page)
    (search_answer : response (list search_item))
    (pages : Z → Z → nat → response links_page)
    (answers : Z → response lien)
    (media_type : option MediaType) (season episode : option Z)
    (verify_links : bool) (max_links_per_title : nat)
    (c : client) : result (list (Link * Title)) * client :=
  let '(titles, c) :=
    search settings now auth_answer search_answer media_type c in
  match titles with
  | [] => (Ok [], c)
  | _ =>
      all_title_links fuel settings now auth_answer pages answers media_type
        season episode verify_links max_links_per_title titles c
  end.

End Verifier.

(** ** app/services/downloads.py: the store of the manager

    [_downloads] keeps the order of insertion, which the lookups by
    queue identifier follow: an association list with distinct keys. *)

Module Manager.
Import PyStr JDownloader Downloads.

(** [k in d], [del d[k]], [d[k] = v] *)
Definition od_mem (k : string) (s : list (string * Download)) : bool :=
  bool_decide (is_Some (assoc k s)).

Definition od_del (k : string) (s : list (string * Download))
  : list (string * Download) :=
  filter (λ kv, kv.1 ≠ k) s.

Definition od_set (k : string) (v : Download) (s : list (string * Download))
  : list (string * Download) :=
  if od_mem k s
  then (λ kv, if String.eqb kv.1 k then (kv.1, v) else kv) <$> s
  else s ++ [(k, v)].

(** The entry whose object is mutated in place. *)
Definition od_mutate (k : string) (f : Download → Download)
    (s : list (string * Download)) : list (string * Download) :=
  (λ kv, if String.eqb kv.1 k then (kv.1, f kv.2) else kv) <$> s.

(** The download [create_download] builds.  [new_id] is the identifier
    drawn for it, [hms] the time of day as [%H%M%S]. *)
Definition new_download (new_id : string) (now : Z) (hms : string)
    (title category : string) (links : list string) (source_url : string)
  : Download :=
  {| id := new_id;
     nzo_id := "SABnzbd_nzo_"
               +:+ replace_char " " "_" (String.substring 0 20 title)
               +:+ "_" +:+ hms;
     Downloads.title := title; Downloads.category := category;
     Downloads.source_url := source_url; download_links := links;
     jd_uuid := None; jd_package_name := None; status := QUEUED;
     progress := QArith_base.Qmake 0 1; size_total := 0;
     size_downloaded := 0; speed := 0; eta := 0; output_path := None;
     created_at := now; completed_at := None; error_message := None |}.

Definition create_download (new_id : string) (now : Z) (hms : string)
    (title category : string) (links : list string) (source_url : string)
    (s : list (string * Download)) : Download * list (string * Download) :=
  let download := new_download new_id now hms title category links source_url in
  (download, od_set (id download) download s).

(** The key of the entry [get_download] returns. *)
Definition found_key (download_id : string) (s : list (string * Download))
  : option string :=
  if od_mem download_id s then Some download_id
  else fst <$> List.find (λ kv, String.eqb (nzo_id kv.2) download_id) s.

Definition get_download (download_id : string) (s : list (string * Download))
  : option Download :=
  match assoc download_id s with
  | Some dl => Some dl
  | None => List.find (λ dl, String.eqb (nzo_id dl) download_id) s.*2
  end.

Definition delete_download (download_id : string) (s : list (string * Download))
  : bool * list (string * Download) :=
  if od_mem download_id s then (true, od_del download_id s)
  else
    match List.find (λ kv, String.eqb (nzo_id kv.2) download_id) s with
    | Some (dl_id, dl) => (true, od_del dl_id s)
    | None => (false, s)
    end.

Definition clear_all (s : list (string * Download)) : list (string * Download) :=
  [].

(** [remove_download]; [None] is the [KeyError] of deleting a key the
    store does not hold. *)
Definition remove_download (download_id : string) (s : list (string * Download))
  : option (bool * list (string * Download)) :=
  match get_download download_id s with
  | Some download =>
      if od_mem (id download) s then Some (true, od_del (id download) s)
      else None
  | None => Some (false, s)
  end.

Definition mark_completed (download_id : string) (now : Z)
    (s : list (string * Download)) : bool * list (string * Download) :=
  match found_key download_id s with
  | Some k =>
      (true,
       od_mutate k (λ download,
                      set_progress full
                        (set_completed_at (Some now)
                           (set_status COMPLETED download))) s)
  | None => (false, s)
  end.

Definition mark_failed (download_id : string) (error : string)
    (s : list (string * Download)) : bool * list (string * Download) :=
  match found_key download_id s with
  | Some k =>
      (true,
       od_mutate k (λ download,
                      set_error_message (Some error)
                        (set_status FAILED download)) s)
  | None => (false, s)
  end.

(** [update_all_progress]: the downloads that are active when the pass
    starts are polled in the order of the store; [clock k] is the time
    read while the download of key [k] is polled. *)
Fixpoint update_all_progress (clock : string → Z)
    (s : list (string * Download)) : M (list (string * Download)) :=
  match s with
  | [] => mret []
  | (k, download) :: rest =>
      download ← (if bool_decide (status download ∈ active_statuses)
                  then update_progress (clock k) download
                  else mret download);
      rest ← update_all_progress clock rest;
      mret ((k, download) :: rest)
  end.

(** The store as a map, for the views and the cleanup. *)
Definition to_map (s : list (string * Download)) : gmap string Download :=
  list_to_map s.

(** Every key is the identifier of its download, and keys are distinct. *)
Definition well_formed (s : list (string * Download)) : Prop :=
  NoDup s.*1 ∧ Forall (λ kv, id kv.2 = kv.1) s.

End Manager.

(** ** app/api/newznab.py and app/api/sabnzbd.py: the requests

    The search branch of [newznab_api], once the query is known, and the
    submission of [addurl] and [addfile], once the payload is decoded:
    [download_url], [clean_title] (a string) and [link_id] are the
    fields of the payload, [cat] the category of the request. *)

Module Endpoint.
Import PyStr Newznab Indexer NewznabApi JDownloader Downloads DarkiWorld.
Import Verifier Manager.

(** The items of the feed of a search: the links of [search_with_links]
    for the media type of the indexer of the request, verified, fifteen
    at most for a title. *)
Definition search_feed (fuel : nat) (settings : Settings) (now : Z)
    (auth_answer : response auth_page)
    (search_answer : response (list search_item))
    (pages : Z → Z → nat → response links_page)
    (answers : Z → response lien)
    (t : string) (categories_list : list Z) (season ep : option Z)
    (c : client) : result (list item) * client :=
  let indexer := request_indexer t categories_list in
  let '(links, c) :=
    search_with_links fuel settings now auth_answer search_answer pages
      answers (Some (ic_media_type indexer)) season ep true 15 c in
  (match links with
   | Ok links => Ok (items_of_links t categories_list links.*1)
   | ValueError => ValueError
   | NoFuel => NoFuel
   end, c).

Definition set_jd_package_name (v : option string) (d : Download) : Download :=
  {| id := id d; nzo_id := nzo_id d; title := title d;
     category := category d; source_url := source_url d;
     download_links := download_links d; jd_uuid := jd_uuid d;
     jd_package_name := v; status := status d;
     progress := progress d; size_total := size_total d;
     size_downloaded := size_downloaded d; speed := speed d; eta := eta d;
     output_path := output_path d; created_at := created_at d;
     completed_at := completed_at d; error_message := error_message d |}.

(** [f"download-{link_id}"] *)
Definition download_title (clean_title : string) (link_id : option Z) : string :=
  if truthy clean_title then clean_title
  else "download-" +:+ match link_id with
                       | Some n => str_of_int n
                       | None => "None"
                       end.

Definition package_name (cat : string) (clean_title : string)
    (link_id : option Z) : string :=
  (if truthy cat then "[" +:+ upper cat +:+ "] " else "")
  +:+ download_title clean_title link_id.

Definition output_folder (settings_output_path cat : string)
    (clean_title : string) (link_id : option Z) : string :=
  (if truthy cat then settings_output_path +:+ "/" +:+ cat
   else settings_output_path)
  +:+ "/" +:+ download_title clean_title link_id.

(** The submission: the queue identifier answered ([None] when the
    payload has no URL: an error is answered and nothing is created) and
    the store.  [new_id], [now] and [hms] are as in [create_download]. *)
Definition add_download (settings_output_path cat : string)
    (download_url : option string) (clean_title : string)
    (link_id : option Z) (new_id : string) (now : Z) (hms : string)
    (s : list (string * Download))
  : M (option string * list (string * Download)) :=
  if negb (opt_truthy download_url) then mret (None, s)
  else
    let url := default "" download_url in
    let '(download, s) :=
      create_download new_id now hms (download_title clean_title link_id) cat
        [url]
        (match link_id with
         | Some n => if n =? 0 then url
                     else "darkiworld://link/" +:+ str_of_int n
         | None => url
         end) s in
    package_id ← add_links [url] (package_name cat clean_title link_id)
                   (output_folder settings_output_path cat clean_title link_id);
    if opt_truthy package_id then
      mret (Some (nzo_id download),
            od_mutate (id download)
              (λ download,
                 set_output_path
                   (Some (output_folder settings_output_path cat clean_title
                            link_id))
                   (set_jd_package_name
                      (Some (package_name cat clean_title link_id))
                      (set_jd_uuid package_id download))) s)
    else mret (Some (nzo_id download), s).

(** The identifier of a slot of the queue and of the history
    ([to_sabnzbd_slot], [to_sabnzbd_history]): [self.nzo_id or self.id]. *)
Definition slot_nzo_id (d : Download) : string :=
  if truthy (nzo_id d) then nzo_id d else id d.

(** [name == "delete"]: the value "all" empties the store, any other
    value is given to [delete_download]. *)
Definition delete_request (value : string) (s : list (string * Download))
  : list (string * Download) :=
  if String.eqb value "all" then clear_all s
  else (delete_download value s).2.

End Endpoint.

(** * Properties *)

(** ** Quality and metadata normaliser *)

Section newznab_properties.
Import PyStr Newznab Scenario.

Lemma size_map_find_elem m q :
  size_map_find m q ∈ (dec 15, dec 40) :: m.*2.
Proof.
  induction m as [|[pattern sizes] m IH]; simpl.
  - left.
  - destruct (contains pattern q).
    + right. left.
    + apply elem_of_cons in IH as [->|IH]; [left|right; right; done].
Qed.







End newznab_properties.

(** ** Agent adapter *)

Section jdownloader_properties.
Import PyStr JDownloader Scenario.

Lemma string_app_assoc (a b c : string) : (a +:+ b) +:+ c = a +:+ (b +:+ c).
Proof.
  induction a as [|d a IH]; [done|].
  change (String d ((a +:+ b) +:+ c) = String d (a +:+ (b +:+ c))).
  by rewrite IH.
Qed.

Lemma replace_char_app c r a b :
  replace_char c r (a +:+ b) = replace_char c r a +:+ replace_char c r b.
Proof.
  induction a as [|d a IH]; [done|].
  change (String d a +:+ b) with (String d (a +:+ b)). simpl.
  destruct (Ascii.eqb d c); rewrite IH; [|done].
  by rewrite string_app_assoc.
Qed.

Lemma normalize_jd_name_app a b :
  normalize_jd_name (a +:+ b) = normalize_jd_name a +:+ normalize_jd_name b.
Proof.
  unfold normalize_jd_name.
  generalize JD_CHAR_REPLACEMENTS as table. intros table. revert a b.
  induction table as [|[c r] table IH]; intros a b; simpl; [done|].
  by rewrite replace_char_app, IH.
Qed.

Lemma normalize_jd_name_char (c : ascii) :
  normalize_jd_name (normalize_jd_name (String c EmptyString))
  = normalize_jd_name (String c EmptyString).
Proof. destruct c as [[] [] [] [] [] [] [] []]; vm_compute; reflexivity. Qed.

(** C10.  [normalize_jd_name] is idempotent, and no character of a
    replacement is a key of the table. *)
Theorem normalize_jd_name_idempotent (s : string) :
  normalize_jd_name (normalize_jd_name s) = normalize_jd_name s
  ∧ Forall (λ kv : ascii * string,
              Forall (λ c, c ∉ JD_CHAR_REPLACEMENTS.*1) (list_ascii_of_string kv.2))
           JD_CHAR_REPLACEMENTS.
Proof.
  split.
  - induction s as [|c s IH]; [reflexivity|].
    change (String c s) with (String c EmptyString +:+ s).
    rewrite !normalize_jd_name_app, IH. f_equal.
    apply normalize_jd_name_char.
  - apply (bool_decide_unpack _). vm_compute. reflexivity.
Qed.

End jdownloader_properties.

(** ** Download lifecycle manager *)

Section lookup_properties.
Import PyStr JDownloader Downloads Scenario.

Lemma get_package_status_eq uuid name ag :
  get_package_status uuid name ag
  = (find_package uuid
       (match name with
        | Some n => if truthy n then Some (normalize_jd_name n) else None
        | None => None
        end) (next_packages ag),
     queried 1 ag).
Proof. reflexivity. Qed.

Lemma queried_calls n ag :
  calls (queried n ag) = calls ag ++ replicate n QueryPackages.
Proof.
  revert ag. induction n as [|n IH]; intros ag; simpl.
  - by rewrite app_nil_r.
  - rewrite IH. simpl. by rewrite <- app_assoc.
Qed.


Lemma find_package_by_name n packages :
  find_package None (Some n) packages
  = if truthy n then _package_to_status <$> by_name n packages else None.
Proof.
  induction packages as [|pkg rest IH]; simpl.
  - by destruct (truthy n).
  - destruct (truthy n) eqn:Hn; simpl; [|done].
    by destruct (String.eqb (pkg_name pkg) n).
Qed.



Lemma by_name_None n packages pkg :
  by_name n packages = None → pkg ∈ packages → pkg_name pkg ≠ n.
Proof.
  intros Hnone Hin%list_elem_of_In.
  pose proof (find_none _ _ Hnone _ Hin) as H.
  by apply String.eqb_neq.
Qed.

Lemma opt_truthy_default (o : option string) :
  opt_truthy o = truthy (default "" o).
Proof. by destruct o. Qed.

Lemma opt_truthy_Some (o : option string) :
  opt_truthy o = true → o = Some (default "" o).
Proof. by destruct o. Qed.

(** Case analysis on the tests and on the lookups of [lookup_status]. *)
Local Ltac case_truthy :=
  match goal with
  | |- context [truthy ?x] =>
      lazymatch x with
      | normalize_jd_name _ => fail
      | _ => destruct (truthy x) eqn:?
      end
  end.

Local Ltac case_found :=
  repeat match goal with
         | H : truthy _ = _ |- _ => rewrite H
         | |- context [find_package ?a ?b ?c] =>
             destruct (find_package a b c) eqn:?
         end.

Lemma lookup_status_unfold (d : Download) (ag : agent) :
  let name := normalize_jd_name (default "" (jd_package_name d)) in
  let ag1 := if opt_truthy (jd_uuid d) then queried 1 ag else ag in
  lookup_status d ag
          = let found :=
              if opt_truthy (jd_uuid d)
              then find_package (jd_uuid d) None (next_packages ag)
              else None in
            match found with
            | Some st => ((Some st, d), ag1)
            | None =>
                if opt_truthy (jd_package_name d) then
                  match find_package None (Some name) (next_packages ag1) with
                  | Some st =>
                      ((Some st, set_jd_uuid (Some (st_uuid st)) d),
                       queried 1 ag1)
                  | None => ((None, d), queried 1 ag1)
                  end
                else ((None, d), ag1)
            end.
Proof.
  intros name ag1. subst ag1 name.
  unfold lookup_status, mbind, agent_bind, mret, agent_ret.
  destruct (jd_uuid d) as [u|]; destruct (jd_package_name d) as [n|];
    unfold opt_truthy; simpl default; cbv zeta;
    repeat case_truthy; do 2 (rewrite ?get_package_status_eq; case_found);
    try reflexivity; try congruence.
Qed.

Lemma lookup_status_download (d : Download) (ag : agent) :
  let r := lookup_status d ag in
  (r.1.1 = None → r.1.2 = d)
  ∧ status r.1.2 = status d
  ∧ output_path r.1.2 = output_path d
  ∧ error_message r.1.2 = error_message d.
Proof.
  cbv zeta. rewrite lookup_status_unfold. cbv zeta.
  repeat case_match; simpl; repeat split; congruence.
Qed.


(** A stored name with ":" and "?" finds the package the agent renamed,
    and the identifier of that package replaces the stored one. *)
Example lookup_by_name_example :
  let ag :=
    an_agent [] [ [a_package 99 "other" false true "" "/output"];
                  [a_package 99 "other" false true "" "/output";
                   a_package 2024 "[RADARR] Test; Movie" false true ""
                             "/output/radarr"] ] in
  normalize_jd_name "[RADARR] Test: Movie?" = "[RADARR] Test; Movie"
  ∧ st_name <$> (lookup_status a_download ag).1.1
    = Some "[RADARR] Test; Movie"
  ∧ jd_uuid (lookup_status a_download ag).1.2 = Some "2024"
  ∧ calls (lookup_status a_download ag).2 = [QueryPackages; QueryPackages].
Proof. vm_compute. done. Qed.

Lemma update_progress_unfold now d ag :
  update_progress now d ag
  = let r := lookup_status d ag in
    match r.1.1 with
    | Some st => apply_status now st r.1.2 r.2
    | None => (r.1.2, r.2)
    end.
Proof.
  unfold update_progress, mbind, agent_bind, mret, agent_ret. cbv zeta.
  destruct (lookup_status d ag) as [[[st|] d1] ag1]; reflexivity.
Qed.

(** The status [apply_status] leaves, and the fields a finished
    package sets. *)
Lemma apply_status_spec now st d ag :
  let d' := (apply_status now st d ag).1 in
  if st_finished st then
    status d' = COMPLETED ∧ progress d' = full ∧ completed_at d' = Some now
    ∧ output_path d'
      = (if truthy (st_save_to st) then Some (st_save_to st) else output_path d)
  else if st_running st then status d' = DOWNLOADING
  else if contains "extract" (lower (st_status st)) then status d' = EXTRACTING
  else if contains "queue" (lower (st_status st))
          || contains "wait" (lower (st_status st))
  then status d' = QUEUED
  else status d' = status d.
Proof.
  unfold apply_status, mbind, agent_bind, mret, agent_ret. cbv zeta.
  destruct (st_finished st); [|repeat case_match; reflexivity].
  destruct (truthy (st_save_to st)) eqn:Hsave;
    rewrite ?andb_false_r; simpl;
    repeat case_match; simpl; repeat split; reflexivity.
Qed.

(** C4 as stated fails: a download submitted with success, whose
    package the agent does not list at the next poll, keeps the status
    it had; it is not failed and no error is recorded. *)
Lemma unresolved_package_not_failed :
  let ag := an_agent [Some "17"] [[]; []] in
  let started := start_download "/output" a_download ag in
  let polled := update_progress 5 started.1.2 started.2 in
  started.1.1 = true
  ∧ (lookup_status started.1.2 started.2).1.1 = None
  ∧ status polled.1 = DOWNLOADING
  ∧ status polled.1 ≠ FAILED
  ∧ error_message polled.1 = None.
Proof. vm_compute. done. Qed.

(** C4, amended.  A poll that resolves a package sets the status from
    it: finished gives completed, progress 100, the completion time,
    and the save-location (when not empty) as output path; else running
    gives downloading; else a status text with "extract" gives
    extracting, with "queue" or "wait" queued, any other leaves the
    status.  A poll that resolves no package leaves the download as it
    is.  A submission without links, or that returns no identifier,
    leaves the download failed with an error message. *)
Theorem update_progress_transitions (now : Z) (settings_output_path : string)
    (d : Download) (ag : agent) :
  (let d' := (update_progress now d ag).1 in
   match (lookup_status d ag).1.1 with
   | None => d' = d
   | Some st =>
       if st_finished st then
         status d' = COMPLETED ∧ progress d' = full
         ∧ completed_at d' = Some now
         ∧ output_path d'
           = (if truthy (st_save_to st) then Some (st_save_to st)
              else output_path d)
       else if st_running st then status d' = DOWNLOADING
       else if contains "extract" (lower (st_status st))
       then status d' = EXTRACTING
       else if contains "queue" (lower (st_status st))
               || contains "wait" (lower (st_status st))
       then status d' = QUEUED
       else status d' = status d
   end)
  ∧ (let started := start_download settings_output_path d ag in
     let uuid := default None (head (add_answers ag)) in
     if bool_decide (download_links d = []) || negb (opt_truthy uuid)
     then started.1.1 = false ∧ status started.1.2 = FAILED
          ∧ opt_truthy (error_message started.1.2) = true
     else started.1.1 = true ∧ status started.1.2 = DOWNLOADING
          ∧ jd_uuid started.1.2 = uuid).
Proof.
  split.
  - cbv zeta. rewrite update_progress_unfold. cbv zeta.
    destruct (lookup_status_download d ag) as (Hnone & Hst & Hout & _).
    destruct ((lookup_status d ag).1.1) as [st|]; [|by apply Hnone].
    pose proof (apply_status_spec now st (lookup_status d ag).1.2
                  (lookup_status d ag).2) as H.
    cbv zeta in H. rewrite Hst, Hout in H. exact H.
  - cbv zeta. unfold start_download, mbind, agent_bind, mret, agent_ret.
    destruct (download_links d) as [|l ls] eqn:Hl; simpl; [done|].
    destruct (opt_truthy (default None (head (add_answers ag)))); done.
Qed.

End lookup_properties.

Section store_properties.
Import PyStr JDownloader Downloads Scenario.

Lemma lookup_foldl_delete {V} (ks : list string) (m : gmap string V) k :
  foldl (λ m k, delete k m) m ks !! k
  = if decide (k ∈ ks) then None else m !! k.
Proof.
  revert m. induction ks as [|k' ks IH]; intros m; simpl.
  - done.
  - rewrite IH. rewrite lookup_delete.
    destruct (decide (k' = k)) as [->|Hne].
    + rewrite (decide_True (P := k ∈ k :: ks)) by left. by case_decide.
    + destruct (decide (k ∈ ks)) as [Hin|Hin].
      * by rewrite decide_True by (by right).
      * rewrite decide_False; [done|].
        intros [?|?]%elem_of_cons; [congruence|done].
Qed.

Lemma size_foldl_delete {V} (ks : list string) (m : gmap string V) :
  NoDup ks → (∀ k, k ∈ ks → is_Some (m !! k)) →
  (size (foldl (λ m k, delete k m) m ks) + length ks = size m)%nat.
Proof.
  revert m. induction ks as [|k ks IH]; intros m Hnd Hin; simpl; [lia|].
  apply NoDup_cons in Hnd as [Hk Hnd].
  destruct (Hin k) as [v Hv]; [left|].
  pose proof (IH (delete k m) Hnd) as H.
  pose proof (map_size_ne_0_lookup_2 m k (mk_is_Some _ _ Hv)) as Hsize.
  rewrite map_size_delete, Hv in H.
  assert (∀ k', k' ∈ ks → is_Some (delete k m !! k')) as Hin'.
  { intros k' Hk'. rewrite lookup_delete_ne by (by intros ->).
    apply Hin. by right. }
  specialize (H Hin'). lia.
Qed.

Lemma elem_of_stale_ids now fs (m : gmap string Download) k :
  k ∈ stale_ids now fs m
  ↔ ∃ dl, m !! k = Some dl ∧ should_remove now fs dl = true.
Proof.
  unfold stale_ids. rewrite list_elem_of_fmap. split.
  - intros ([k' dl] & -> & [Hrm Hin%elem_of_map_to_list]%list_elem_of_filter).
    eauto.
  - intros (dl & Hm & Hrm). exists (k, dl). split; [done|].
    apply list_elem_of_filter. split; [done|]. by apply elem_of_map_to_list.
Qed.

Lemma NoDup_stale_ids now fs (m : gmap string Download) :
  NoDup (stale_ids now fs m).
Proof.
  unfold stale_ids. pose proof (NoDup_fst_map_to_list m) as Hnd.
  induction (map_to_list m) as [|[k dl] l IH]; simpl in *; [constructor|].
  apply NoDup_cons in Hnd as [Hk Hnd].
  rewrite filter_cons. case_decide; simpl; [|by apply IH].
  apply NoDup_cons. split; [|by apply IH].
  intros ([k' dl'] & Heq & [_ Hin]%list_elem_of_filter)%list_elem_of_fmap.
  simpl in Heq. subst k'. apply Hk. apply list_elem_of_fmap.
  by exists (k, dl').
Qed.

(** C5 as stated fails: a completed download whose output directory
    still exists and holds an entry (a hidden one) is removed. *)
Lemma hidden_entries_count_as_empty :
  a_store !! "d1" = Some imported
  ∧ status imported = COMPLETED
  ∧ a_file_system !! "/output/radarr/Test Movie" = Some (FsDir [".stfolder"])
  ∧ spec_should_remove 0 a_file_system imported = false
  ∧ (cleanup_stale_downloads 0 a_file_system a_store).1 !! "d1" = None.
Proof. vm_compute. done. Qed.

(** C5, amended.  One cleanup pass removes the entries for which
    [should_remove] holds and no other, and returns their number:
    completed downloads with a recorded output path that no longer
    exists or is a directory whose entries are all hidden (names
    starting with a dot), and failed downloads created more than 24
    hours before.  Active downloads and failed downloads within the
    threshold are kept as they are. *)
Theorem cleanup_removes_exactly_stale (now : Z) (fs : gmap string fs_node)
    (downloads : gmap string Download) :
  let after := cleanup_stale_downloads now fs downloads in
  (∀ dl_id,
     after.1 !! dl_id
     = dl ← downloads !! dl_id;
       if should_remove now fs dl then None else Some dl)
  ∧ (size after.1 + after.2 = size downloads)%nat
  ∧ (∀ dl,
       should_remove now fs dl = true
       ↔ (status dl = COMPLETED
          ∧ ∃ path, output_path dl = Some path ∧ path ≠ ""
                    ∧ (fs !! path = None
                       ∨ ∃ entries,
                           fs !! path = Some (FsDir entries)
                           ∧ Forall (λ f, startswith "." f = true) entries))
         ∨ (status dl = FAILED ∧ one_day < now - created_at dl))
  ∧ (∀ dl_id dl,
       downloads !! dl_id = Some dl → status dl ∈ active_statuses →
       after.1 !! dl_id = Some dl)
  ∧ (∀ dl_id dl,
       downloads !! dl_id = Some dl → status dl = FAILED →
       now - created_at dl ≤ one_day →
       after.1 !! dl_id = Some dl).
Proof.
  cbv zeta. unfold cleanup_stale_downloads. simpl.
  assert (∀ dl_id,
    foldl (λ m k, delete k m) downloads (stale_ids now fs downloads) !! dl_id
    = dl ← downloads !! dl_id;
      if should_remove now fs dl then None else Some dl) as Hlookup.
  { intros k. rewrite lookup_foldl_delete.
    destruct (downloads !! k) as [dl|] eqn:Hk; simpl.
    - destruct (should_remove now fs dl) eqn:Hrm.
      + rewrite decide_True; [done|]. apply elem_of_stale_ids. eauto.
      + rewrite decide_False; [done|].
        intros (dl' & ? & ?)%elem_of_stale_ids. congruence.
    - by case_decide. }
  split; [exact Hlookup|]. split; [|split; [|split]].
  - apply size_foldl_delete; [apply NoDup_stale_ids|].
    intros k (dl & -> & _)%elem_of_stale_ids. eauto.
  - intros dl. unfold should_remove. split.
    + destruct (status dl) eqn:Hs; try done.
      * destruct (output_path dl) as [path|]; [|done].
        destruct path as [|c path]; [done|]. simpl.
        intros H. left. split; [done|]. eexists; split; [done|].
        split; [done|].
        destruct (fs !! String c path) as [[|entries]|]; [done| |by left].
        right. exists entries. split; [done|].
        apply Nat.eqb_eq in H. unfold visible in H.
        apply Forall_forall. intros f Hf.
        destruct (startswith "." f) eqn:Hdot; [done|].
        assert (f ∈ filter (λ f, startswith "." f = false) entries) as Hin
          by (by apply list_elem_of_filter).
        destruct (filter _ entries); [by apply elem_of_nil in Hin|done].
      * intros H%Z.ltb_lt. by right.
    + intros [(Hs & path & Hp & Hne & Hfs)|[Hs Hage]]; rewrite Hs.
      * rewrite Hp. destruct path as [|c path]; [done|]. simpl.
        destruct Hfs as [->|(entries & -> & Hall)]; [done|].
        apply Nat.eqb_eq. unfold visible.
        induction Hall as [|f entries Hf _ IH]; [done|].
        rewrite filter_cons, decide_False; [done|]. by rewrite Hf.
      * by apply Z.ltb_lt.
  - intros k dl Hk Hact. rewrite Hlookup, Hk. simpl.
    unfold should_remove.
    destruct (status dl); try done;
      exfalso; apply (bool_decide_pack _) in Hact; exact Hact.
  - intros k dl Hk Hs Hage. rewrite Hlookup, Hk. simpl.
    unfold should_remove. rewrite Hs.
    destruct (Z.ltb_spec one_day (now - created_at dl)); [lia|done].
Qed.




End store_properties.

(** ** Catalog client *)

Section catalog_properties.
Import PyStr DarkiWorld Scenario.

Lemma no_credentials_no_session settings c :
  no_credentials settings → reachable settings c →
  _session_valid_until c = None.
Proof.
  intros Hno Hreach. induction Hreach as [|c now answer Hreach IH]; [done|].
  unfold ensure_authenticated, session_valid. rewrite IH.
  destruct Hno as [-> | ->]; simpl; [done|].
  by rewrite orb_true_r.
Qed.

Lemma ensure_authenticated_closed settings now answer c :
  no_credentials settings → _session_valid_until c = None →
  ensure_authenticated settings now answer c = (false, c).
Proof.
  intros Hno Hsession. unfold ensure_authenticated, session_valid.
  rewrite Hsession. destruct Hno as [-> | ->]; simpl; [done|].
  by rewrite orb_true_r.
Qed.

(** C7.  Without a remember-cookie name or value, on every state the
    client can be in, authentication returns false and changes
    nothing; search and link listing return the empty list, link
    verification returns (false, none) and the download URL is none,
    whatever the upstream would answer. *)
Theorem authentication_fails_closed (settings : Settings) (c : client)
    (now : Z) (auth_answer : response auth_page)
    (search_answer : response (list search_item))
    (pages : nat → response links_page) (lien_answer : response lien)
    (media_type : option MediaType) (title_id : Z) (fuel : nat) :
  no_credentials settings →
  reachable settings c →
  ensure_authenticated settings now auth_answer c = (false, c)
  ∧ search settings now auth_answer search_answer media_type c = ([], c)
  ∧ get_title_links fuel settings now auth_answer pages title_id c
    = (Some [], c)
  ∧ verify_link_availability settings now auth_answer lien_answer c
    = ((false, None), c)
  ∧ get_download_url settings now auth_answer lien_answer c = (None, c).
Proof.
  intros Hno Hreach.
  pose proof (ensure_authenticated_closed settings now auth_answer c Hno
                (no_credentials_no_session _ _ Hno Hreach)) as Hauth.
  unfold search, get_title_links, verify_link_availability, get_download_url.
  rewrite Hauth. done.
Qed.

Lemma authentication_fails_closed_witness :
  no_credentials unconfigured
  ∧ reachable unconfigured
      (ensure_authenticated unconfigured 5 Raises new_client).2
  ∧ search unconfigured 7 (Resp 200 None) (Resp 200 (Some [])) (Some MOVIE)
      (ensure_authenticated unconfigured 5 Raises new_client).2
    = ([], new_client).
Proof.
  assert (no_credentials unconfigured) as Hno by (by left).
  assert (reachable unconfigured
            (ensure_authenticated unconfigured 5 Raises new_client).2) as Hr
    by (apply reach_auth, reach_new).
  split; [exact Hno|]. split; [exact Hr|].
  exact (proj1 (proj2 (authentication_fails_closed unconfigured _ 7
                         (Resp 200 None) (Resp 200 (Some [])) two_pages
                         Raises (Some MOVIE) 1 50 Hno Hr))).
Defined.

(** *** The pagination loop *)

Lemma links_loop_step fuel c title_id pages page info all_links :
  links_loop (S fuel) c title_id pages page info all_links
  = match classify (pages page) with
    | KRaises => Some (Raised page)
    | KRefused | KEmpty => Some (Break all_links page)
    | KShort data =>
        Some (Break (all_links ++
                     omap (λ link, _parse_link c link title_id
                                     (info_at page data info))
                          (page_data data)) page)
    | KFull data =>
        let all_links :=
          all_links ++
          omap (λ link, _parse_link c link title_id (info_at page data info))
               (page_data data) in
        if (max_pages <? S page)%nat then Some (Break all_links page)
        else links_loop fuel c title_id pages (S page)
               (info_at page data info) all_links
    end.
Proof.
  simpl. unfold classify, info_at.
  destruct (pages page) as [|status_code [data|]]; [done| |];
    destruct (negb (status_code =? 200)); try done.
  destruct (negb (String.eqb (page_status data) "success")); [done|].
  destruct (page_data data) as [|link links_data] eqn:Hdata; [done|].
  destruct (length (link :: links_data) <? per_page_cap)%nat;
    [by rewrite Hdata|].
  cbv zeta. rewrite Hdata. destruct (max_pages <? S page)%nat; [|done].
  by rewrite Nat.sub_0_r.
Qed.

Lemma classify_data r data :
  classify r = KShort data ∨ classify r = KFull data →
  ∃ status_code, r = Resp status_code (Some data).
Proof.
  unfold classify. intros H.
  destruct r as [|status_code [data'|]];
    [destruct H; discriminate| |];
    (destruct (negb (status_code =? 200)); [destruct H; discriminate|]);
    [|destruct H; discriminate].
  destruct (negb (String.eqb (page_status data') "success"));
    [destruct H; discriminate|].
  destruct (page_data data'); [destruct H; discriminate|].
  exists status_code.
  destruct (length _ <? per_page_cap)%nat; destruct H; congruence.
Qed.

Lemma info_at_listing pages page data info :
  classify (pages page) = KShort data ∨ classify (pages page) = KFull data →
  (page ≠ 1%nat → info = listing_info pages) →
  info_at page data info = listing_info pages.
Proof.
  intros [status_code Hr]%classify_data Hinfo. unfold info_at.
  destruct (Nat.eqb_spec page 1) as [->|Hne]; [|by apply Hinfo].
  unfold listing_info. by rewrite Hr.
Qed.

Lemma stop_page_bounds pages more page :
  (page ≤ stop_page pages more page ≤ page + more)%nat.
Proof.
  revert page. induction more as [|more IH]; intros page; simpl; [lia|].
  destruct (is_full (pages page)); [|lia].
  specialize (IH (S page)). lia.
Qed.



Lemma links_loop_from c title_id pages more :
  ∀ page fuel info all_links,
    (page + more = max_pages)%nat → (more < fuel)%nat →
    (page ≠ 1%nat → info = listing_info pages) →
    let n := stop_page pages more page in
    links_loop fuel c title_id pages page info all_links
    = Some (end_at pages n
              (all_links ++
               flat_map (page_links c title_id pages)
                        (seq page (n - page + 1)))).
Proof.
  induction more as [|more IH]; intros page fuel info all_links Hmax Hfuel Hinfo;
    (destruct fuel as [|fuel]; [lia|]); cbv zeta;
    rewrite links_loop_step; simpl stop_page.
  - replace (page - page + 1)%nat with 1%nat by lia. simpl flat_map.
    rewrite app_nil_r. unfold end_at, page_links.
    destruct (classify (pages page)) as [| | |data|data] eqn:Hk;
      rewrite ?app_nil_r; try done.
    + by rewrite (info_at_listing pages) by eauto.
    + cbv zeta. rewrite (info_at_listing pages) by eauto.
      replace (max_pages <? S page)%nat with true; [done|].
      symmetry. apply Nat.ltb_lt. lia.
  - unfold is_full.
    destruct (classify (pages page)) as [| | |data|data] eqn:Hk.
    1-4: replace (page - page + 1)%nat with 1%nat by lia; simpl flat_map;
         rewrite app_nil_r; unfold end_at, page_links; rewrite Hk;
         rewrite ?app_nil_r; try done.
    + by rewrite (info_at_listing pages) by eauto.
    + cbv zeta. rewrite (info_at_listing pages) by eauto.
      replace (max_pages <? S page)%nat with false
        by (symmetry; apply Nat.ltb_ge; lia).
      rewrite IH by (done || lia).
      pose proof (stop_page_bounds pages more (S page)) as Hb.
      replace (stop_page pages more (S page) - page + 1)%nat
        with (S (stop_page pages more (S page) - S page + 1)) by lia.
      assert (page_links c title_id pages page
              = omap (λ link, _parse_link c link title_id (listing_info pages))
                     (page_data data)) as <-
        by (unfold page_links; by rewrite Hk).
      simpl seq. simpl flat_map. by rewrite app_assoc.
Qed.



End catalog_properties.

(** ** Link verifier and ranker: diversification *)

Section diversification_properties.
Import PyStr DarkiWorld Scenario.

Lemma key_le_refl a : key_le a a = true.
Proof.
  unfold key_le. rewrite Z.eqb_refl, Z.leb_refl. by rewrite orb_true_r.
Qed.

Lemma key_le_total a b : key_le a b = false → key_le b a = true.
Proof.
  unfold key_le. destruct a as [a1 a2], b as [b1 b2]. simpl.
  destruct (Z.ltb_spec a1 b1), (Z.eqb_spec a1 b1), (Z.leb_spec a2 b2),
    (Z.ltb_spec b1 a1), (Z.eqb_spec b1 a1), (Z.leb_spec b2 a2);
    simpl; intros; try done; lia.
Qed.

Lemma key_le_trans a b c :
  key_le a b = true → key_le b c = true → key_le a c = true.
Proof.
  unfold key_le. destruct a as [a1 a2], b as [b1 b2], c as [c1 c2]. simpl.
  destruct (Z.ltb_spec a1 b1), (Z.eqb_spec a1 b1), (Z.leb_spec a2 b2),
    (Z.ltb_spec b1 c1), (Z.eqb_spec b1 c1), (Z.leb_spec b2 c2),
    (Z.ltb_spec a1 c1), (Z.eqb_spec a1 c1), (Z.leb_spec a2 c2);
    simpl; intros; try done; lia.
Qed.

Section sorted_head.
Context {A : Type} (key : A → Z * Z).

Lemma insert_sorted_not_nil x l : insert_sorted key x l ≠ [].
Proof. destruct l; simpl; [done|]. by case_match. Qed.

Lemma sorted_nil_inv l : sorted key l = [] → l = [].
Proof.
  destruct l as [|x l]; [done|]. simpl. intros H.
  by apply insert_sorted_not_nil in H.
Qed.

(** The head of a stable sort is the first element, in the order of
    the input, whose key is minimal. *)
Lemma sorted_head l x :
  head (sorted key l) = Some x →
  ∃ l1 l2, l = l1 ++ x :: l2
           ∧ (∀ y, y ∈ l1 → key_le (key y) (key x) = false)
           ∧ (∀ y, y ∈ l → key_le (key x) (key y) = true).
Proof.
  revert x. induction l as [|a l IH]; intros x; simpl; [done|].
  destruct (sorted key l) as [|y t] eqn:Hs.
  - apply sorted_nil_inv in Hs as ->. simpl. intros [= ->].
    exists [], []. split; [done|]. split.
    + by intros y ?%elem_of_nil.
    + intros y ->%list_elem_of_singleton. apply key_le_refl.
  - destruct (IH y eq_refl) as (l1 & l2 & -> & Hbefore & Hmin).
    simpl. destruct (key_le (key a) (key y)) eqn:Hle; simpl; intros [= <-].
    + exists [], (l1 ++ y :: l2). split; [done|]. split.
      * by intros z ?%elem_of_nil.
      * intros z [->|Hz]%elem_of_cons; [apply key_le_refl|].
        eapply key_le_trans; [exact Hle|]. by apply Hmin.
    + exists (a :: l1), l2. split; [done|]. split.
      * intros z [->|Hz]%elem_of_cons; [done|]. by apply Hbefore.
      * intros z [->|Hz]%elem_of_cons; [by apply key_le_total|].
        by apply Hmin.
Qed.
End sorted_head.

Lemma bucket_insert (m : gmap Z (list Link)) e e' v :
  bucket (<[e' := v]> m) e = if decide (e' = e) then v else bucket m e.
Proof. unfold bucket. rewrite lookup_insert. by case_decide. Qed.

Lemma group_by_episode_snoc all_links link :
  group_by_episode (all_links ++ [link])
  = <[episode_of link :=
        bucket (group_by_episode all_links) (episode_of link) ++ [link]]>
      (group_by_episode all_links).
Proof. unfold group_by_episode. by rewrite foldl_app. Qed.

Lemma group_by_episode_lookup all_links e :
  group_by_episode all_links !! e
  = match filter (λ link, episode_of link = e) all_links with
    | [] => None
    | bucket => Some bucket
    end.
Proof.
  induction all_links as [|link all_links IH] using rev_ind; [done|].
  rewrite group_by_episode_snoc, filter_app, lookup_insert.
  rewrite filter_cons, filter_nil. unfold bucket.
  destruct (decide (episode_of link = e)) as [->|Hne].
  - rewrite IH. by destruct (filter _ all_links).
  - by rewrite IH, app_nil_r.
Qed.

Lemma bucket_group all_links e :
  bucket (group_by_episode all_links) e
  = filter (λ link, episode_of link = e) all_links.
Proof.
  unfold bucket. rewrite group_by_episode_lookup.
  by destruct (filter _ all_links).
Qed.

Lemma elem_of_episodes all_links e :
  e ∈ episodes all_links ↔ ∃ link, link ∈ all_links ∧ episode_of link = e.
Proof.
  unfold episodes. rewrite merge_sort_Permutation, list_elem_of_fmap. split.
  - intros ([e' links] & -> & Hin%elem_of_map_to_list). simpl.
    rewrite group_by_episode_lookup in Hin.
    destruct (filter _ all_links) as [|link ?] eqn:Hf; [done|].
    assert (link ∈ filter (λ link, episode_of link = e') all_links) as Hl
      by (rewrite Hf; left).
    apply list_elem_of_filter in Hl as [? ?]. eauto.
  - intros (link & Hin & <-).
    exists (episode_of link,
            filter (λ l, episode_of l = episode_of link) all_links).
    split; [done|]. apply elem_of_map_to_list.
    rewrite group_by_episode_lookup.
    assert (link ∈ filter (λ l, episode_of l = episode_of link) all_links)
      as Hl by (by apply list_elem_of_filter).
    destruct (filter _ all_links); [by apply elem_of_nil in Hl|done].
Qed.



Lemma representative_of all_links e :
  e ∈ episodes all_links →
  ∃ r, head (sorted sort_key (bucket (group_by_episode all_links) e)) = Some r
       ∧ episode_of r = e
       ∧ r ∈ all_links
       ∧ (∀ link, link ∈ all_links → episode_of link = e →
                  key_le (sort_key r) (sort_key link) = true)
       ∧ (∃ before after,
            filter (λ link, episode_of link = e) all_links
            = before ++ r :: after
            ∧ ∀ link, link ∈ before →
                      key_le (sort_key link) (sort_key r) = false).
Proof.
  intros (link & Hin & He)%elem_of_episodes. rewrite bucket_group.
  set (b := filter (λ l, episode_of l = e) all_links).
  assert (link ∈ b) as Hb by (by apply list_elem_of_filter).
  destruct (sorted sort_key b) as [|r t] eqn:Hs.
  { apply sorted_nil_inv in Hs. rewrite Hs in Hb. by apply elem_of_nil in Hb. }
  exists r. split; [done|].
  destruct (sorted_head sort_key b r) as (l1 & l2 & Hsplit & Hbefore & Hmin);
    [by rewrite Hs|].
  assert (r ∈ b) as [Hr1 Hr2]%list_elem_of_filter.
  { rewrite Hsplit. apply elem_of_app. right. left. }
  split; [done|]. split; [done|]. split.
  - intros l Hl Hel. apply Hmin. by apply list_elem_of_filter.
  - exists l1, l2. done.
Qed.

Lemma representatives_cover all_links :
  ∀ es : list Z, (∀ e, e ∈ es → e ∈ episodes all_links) →
  episode_of <$>
    omap (λ ep, head (sorted sort_key (bucket (group_by_episode all_links) ep)))
         es
  = es.
Proof.
  induction es as [|e es IH]; intros Hes; [done|].
  destruct (representative_of all_links e) as (r & Hhead & Hr & _);
    [apply Hes; left|].
  change (omap ?f (e :: es)) with
    (match f e with Some y => y :: omap f es | None => omap f es end).
  cbv beta. rewrite Hhead, fmap_cons, Hr. f_equal.
  apply IH. intros e' ?. apply Hes. by right.
Qed.






End diversification_properties.

(** * Further properties *)

(** ** Normaliser *)

Section normaliser_properties.
Import PyStr Newznab Indexer NewznabApi Scenario.

Lemma assoc_Some_elem {V} k (d : list (string * V)) v :
  assoc k d = Some v → (k, v) ∈ d.
Proof.
  induction d as [|[k' v'] d IH]; simpl; [done|].
  destruct (String.eqb_spec k k') as [->|Hne].
  - intros [= ->]. left.
  - intros H. right. by apply IH.
Qed.

(** X1.  [normalize_quality] only returns names of the release-quality
    vocabulary: a value of the table, a type with a resolution, or "DVD". *)
Theorem normalize_quality_vocabulary (raw_quality : string) :
  normalize_quality raw_quality ∈ QUALITY_MAPPING.*2
  ∨ normalize_quality raw_quality = "DVD"
  ∨ ∃ quality_type resolution,
      quality_type ∈ ["Remux"; "Bluray"; "WEBRip"; "WEBDL"; "HDTV"]
      ∧ resolution ∈ ["2160p"; "1080p"; "720p"; "480p"]
      ∧ normalize_quality raw_quality = quality_type +:+ "-" +:+ resolution.
Proof.
  unfold normalize_quality.
  destruct (negb (truthy raw_quality) || String.eqb raw_quality "Unknown").
  { left. apply (bool_decide_unpack _). vm_compute. reflexivity. }
  destruct (assoc raw_quality QUALITY_MAPPING) as [q|] eqn:Hq.
  { left. apply assoc_Some_elem in Hq. apply list_elem_of_fmap.
    by exists (raw_quality, q). }
  cbv zeta.
  repeat case_match; try (right; left; reflexivity);
    match goal with
    | |- context [?quality_type +:+ "-" +:+ ?resolution] =>
        right; right; exists quality_type, resolution
    end;
    (split; [|split; [|reflexivity]]);
    apply (bool_decide_unpack _); vm_compute; reflexivity.
Qed.

(** X2.  A raw quality that the table lists is mapped to the value the
    table gives it, without the heuristic. *)
Theorem normalize_quality_table (raw_quality canonical : string) :
  (raw_quality, canonical) ∈ QUALITY_MAPPING →
  normalize_quality raw_quality = canonical.
Proof.
  intros Hin.
  assert (Forall (λ kv : string * string, normalize_quality kv.1 = kv.2)
            QUALITY_MAPPING) as Hall.
  { apply (bool_decide_unpack _). vm_compute. reflexivity. }
  rewrite Forall_forall in Hall. exact (Hall _ Hin).
Qed.

Lemma normalize_quality_table_witness :
  normalize_quality "REMUX BLURAY" = "Bluray-1080p Remux".
Proof.
  apply normalize_quality_table.
  apply (bool_decide_unpack _). vm_compute. reflexivity.
Defined.

Lemma estimate_file_size_floor quality media_type is_season_pack :
  536870912 ≤ estimate_file_size quality media_type is_season_pack.
Proof.
  unfold estimate_file_size. cbv zeta.
  pose proof (size_map_find_elem size_map (upper quality)) as Hin.
  assert (Forall (λ p : decimal * decimal,
                    536870912 ≤ bytes_of_gb p.1
                    ∧ 536870912 ≤ bytes_of_gb (dec_scale p.1 10)
                    ∧ 536870912 ≤ bytes_of_gb p.2)
            ((dec 15, dec 40) :: size_map.*2)) as Hall.
  { apply (bool_decide_unpack _). vm_compute. reflexivity. }
  rewrite Forall_forall in Hall. specialize (Hall _ Hin).
  destruct (size_map_find size_map (upper quality)) as [e m].
  simpl in Hall. destruct Hall as (He & Hp & Hm).
  destruct media_type as [[]|]; try done.
  by destruct is_season_pack.
Qed.

(** X3.  The size of a result item is never under the floor of
    100,000,000 bytes, whatever the notes and the provider state. *)
Theorem resolve_size_floor (link : Link) (media_type : option MediaType) :
  100000000 ≤ resolve_size link media_type.
Proof.
  unfold resolve_size. cbv zeta.
  pose proof (estimate_file_size_floor (link_quality link) media_type
                (is_season_pack link)) as Hest.
  assert (100000000 ≤
          (if 100000000 <? link_size link then link_size link
           else estimate_file_size (link_quality link) media_type
                  (is_season_pack link))) as Hfallback.
  { destruct (Z.ltb_spec 100000000 (link_size link)); lia. }
  destruct (extract_size_from_nfo (link_nfo link)) as [size|]; [|done].
  destruct (Z.eqb_spec size 0); simpl; [done|].
  destruct (Z.ltb_spec size 100000000); [done|lia].
Qed.

Lemma request_indexer_cases t categories_list :
  request_indexer t categories_list ∈ [radarr; sonarr; lidarr].
Proof.
  unfold request_indexer, get_indexer_by_search_type.
  destruct (assoc t type_map) as [indexer_id|] eqn:Ht.
  - apply assoc_Some_elem in Ht.
    assert (Forall (λ kv : string * string,
                      default radarr (assoc kv.2 INDEXER_CONFIGS)
                      ∈ [radarr; sonarr; lidarr]
                      ∧ is_Some (assoc kv.2 INDEXER_CONFIGS)) type_map) as Hall.
    { repeat constructor; simpl; eauto. }
    rewrite Forall_forall in Hall. destruct (Hall _ Ht) as [Hin [x Hx]].
    simpl in *. by rewrite Hx in Hin |- *.
  - repeat case_match; simplify_eq/=;
      repeat (first [left | right]; try reflexivity).
Qed.

(** X4.  The category of a result item is one of those the capabilities
    document lists for the media kind of the indexer that serves the
    request, and one of the Torznab categories of that indexer. *)
Theorem item_category_advertised (t : string) (categories_list : list Z)
    (link : Link) :
  let indexer := request_indexer t categories_list in
  let category := item_category (item_of_link link (ic_media_type indexer)) in
  category ∈ caps_categories (ic_media_type indexer)
  ∧ category ∈ str_of_int <$> ic_torznab_categories indexer.
Proof.
  cbv zeta. unfold item_of_link.
  destruct (build_release_title _ _ _) as [display_title clean_title].
  simpl item_category. unfold get_category_for_quality.
  pose proof (request_indexer_cases t categories_list) as Hin.
  repeat (apply elem_of_cons in Hin as [->|Hin]);
    [| | |by apply elem_of_nil in Hin];
    cbn [ic_media_type radarr sonarr lidarr]; repeat case_match;
    split; apply (bool_decide_unpack _); vm_compute; reflexivity.
Qed.

Lemma filter_nil_iff {A} (P : A → Prop) `{∀ x, Decision (P x)} (l : list A) :
  filter P l = [] ↔ ∀ x, x ∈ l → ¬ P x.
Proof.
  induction l as [|a l IH]; [by split; [intros _ x ?%elem_of_nil|]|].
  rewrite filter_cons. destruct (decide (P a)) as [Ha|Ha].
  - split; [done|]. intros Hall. exfalso. apply (Hall a); [left|done].
  - rewrite IH. split.
    + intros Hall x [->|Hx]%elem_of_cons; [done|by apply Hall].
    + intros Hall x Hx. apply Hall. by right.
Qed.

Lemma filter_not_nil_iff {A} (P : A → Prop) `{∀ x, Decision (P x)} (l : list A) :
  filter P l ≠ [] ↔ ∃ x, x ∈ l ∧ P x.
Proof.
  split.
  - destruct (filter P l) as [|x k] eqn:Hf; [done|]. intros _. exists x.
    assert (x ∈ filter P l) as [? ?]%list_elem_of_filter by (rewrite Hf; left).
    done.
  - intros (x & Hx & HP) Hnil. by apply (proj1 (filter_nil_iff P l) Hnil x).
Qed.

(** X5.  A request is always served by one of the three indexers.  It
    is the music one for the types "music" and "audio" and for a generic
    "search" with a category in 3000-3999; the series one for "tvsearch"
    and for a generic search with no music category and a category in
    5000-5999; the movie one in every other case. *)
Theorem request_indexer_media_type (t : string) (categories_list : list Z) :
  let media_type := ic_media_type (request_indexer t categories_list) in
  let music := ∃ c, c ∈ categories_list ∧ 3000 ≤ c ∧ c < 4000 in
  let tv := ∃ c, c ∈ categories_list ∧ 5000 ≤ c ∧ c < 6000 in
  get_indexer_by_search_type t categories_list
  = Some (request_indexer t categories_list)
  ∧ (media_type = MUSIC
     ↔ t = "music" ∨ t = "audio" ∨ (t = "search" ∧ music))
  ∧ (media_type = TV
     ↔ t = "tvsearch" ∨ (t = "search" ∧ ¬ music ∧ tv))
  ∧ (media_type = MOVIE
     ↔ t ≠ "music" ∧ t ≠ "audio" ∧ t ≠ "tvsearch"
       ∧ (t = "search" → ¬ music ∧ ¬ tv)).
Proof.
  cbv zeta. unfold request_indexer, get_indexer_by_search_type.
  simpl assoc.
  destruct (String.eqb_spec t "movie") as [->|Hmovie];
    [simpl; intuition congruence|].
  destruct (String.eqb_spec t "tvsearch") as [->|Htv];
    [simpl; intuition congruence|].
  destruct (String.eqb_spec t "music") as [->|Hmusic];
    [simpl; intuition congruence|].
  destruct (String.eqb_spec t "audio") as [->|Haudio];
    [simpl; intuition congruence|].
  destruct (String.eqb_spec t "search") as [->|Hsearch]; simpl andb;
    [|simpl; intuition congruence].
  pose proof (filter_not_nil_iff (λ c, 3000 ≤ c ∧ c < 4000) categories_list)
    as Hmusic_iff.
  pose proof (filter_not_nil_iff (λ c, 5000 ≤ c ∧ c < 6000) categories_list)
    as Htv_iff.
  simpl in Hmusic_iff, Htv_iff.
  case_bool_decide as Hcats.
  - cbv zeta.
    destruct (filter (λ c, 3000 ≤ c ∧ c < 4000) categories_list) as [|m ms];
      [|simpl; intuition congruence].
    destruct (filter (λ c, 5000 ≤ c ∧ c < 6000) categories_list) as [|v vs];
      simpl; intuition congruence.
  - assert (categories_list = []) as -> by (by destruct categories_list).
    simpl in *. intuition congruence.
Qed.

Lemma prefix_app_self (a b : string) : String.prefix a (a +:+ b) = true.
Proof.
  induction a as [|c a IH]; [by destruct b|].
  change (String c a +:+ b) with (String c (a +:+ b)). simpl.
  by destruct (ascii_dec c c).
Qed.

Lemma prefix_refl (a : string) : String.prefix a a = true.
Proof. induction a as [|c a IH]; [done|]. simpl. by destruct (ascii_dec c c). Qed.

Lemma prefix_join_head sep (x : string) (rest : list string) :
  String.prefix x (join sep (x :: rest)) = true.
Proof.
  unfold join. destruct rest as [|y rest]; simpl.
  - apply prefix_refl.
  - apply prefix_app_self.
Qed.

(** X6.  The display title is the clean title followed by the host in
    brackets; the clean title begins with the title of the link; and for
    a series neither rendering depends on the notes of the link (no
    edition is taken from them). *)
Theorem build_release_title_shape (link : Link) (nfo_data nfo_data' : list string)
    (media_type : option MediaType) :
  let titles := build_release_title link nfo_data media_type in
  titles.1 = titles.2 +:+ " [" +:+ link_host link +:+ "]"
  ∧ String.prefix (link_title link) titles.2 = true
  ∧ build_release_title link nfo_data (Some TV)
    = build_release_title link nfo_data' (Some TV).
Proof.
  cbv zeta. split; [reflexivity|]. split; [|reflexivity].
  unfold build_release_title. cbv zeta. simpl snd.
  repeat case_match; simpl app; apply prefix_join_head.
Qed.

Lemma prefix_cons a p b s :
  String.prefix (String a p) (String b s)
  = if ascii_dec a b then String.prefix p s else false.
Proof. reflexivity. Qed.

Lemma contains_space_replace s :
  contains " " (replace_char " " "" s) = false.
Proof.
  induction s as [|d s IH]; [done|]. simpl replace_char.
  destruct (Ascii.eqb_spec d " ") as [->|Hne]; [exact IH|].
  change (contains ?x (String d ?r))
    with (String.prefix x (String d r) || contains x r).
  rewrite IH, orb_false_r, prefix_cons.
  destruct (ascii_dec " " d) as [Heq|]; [congruence|done].
Qed.

(** X7.  A normalised language holds no space: it stays one token of
    the release title. *)
Theorem normalize_language_one_token (lang : string) :
  contains " " (normalize_language lang) = false.
Proof.
  unfold normalize_language.
  destruct (assoc lang lang_map) as [v|] eqn:Hv; simpl.
  - apply assoc_Some_elem in Hv.
    assert (Forall (λ kv : string * string, contains " " kv.2 = false) lang_map)
      as Hall by (apply (bool_decide_unpack _); vm_compute; reflexivity).
    rewrite Forall_forall in Hall. exact (Hall _ Hv).
  - apply contains_space_replace.
Qed.

Lemma parse_float_go_nonneg s mant frac digits d :
  0 ≤ mant → parse_float_go s mant frac digits = Some d → 0 ≤ dec_mant d.
Proof.
  revert mant frac digits. induction s as [|c s IH]; intros mant frac digits Hm;
    simpl.
  - destruct digits; [|done]. by intros [= <-].
  - destruct (Re.is_digit c).
    + apply IH. lia.
    + destruct (Ascii.eqb c "."); [|done].
      destruct frac; [done|]. by apply IH.
Qed.

Lemma bytes_nonneg d :
  0 ≤ dec_mant d → 0 ≤ bytes_of_gb d ∧ 0 ≤ bytes_of_mb d.
Proof.
  intros Hm. unfold bytes_of_gb, bytes_of_mb.
  split; apply Z.div_pos; lia.
Qed.

Lemma size_from_patterns_nonneg pats nfo_text size :
  size_from_patterns pats nfo_text = Some size → 0 ≤ size.
Proof.
  induction pats as [|[[pat g1] g2] pats IH]; simpl; [done|].
  destruct (Re.search pat nfo_text) as [caps|]; [|exact IH].
  destruct (parse_float _) as [size_float|] eqn:Hparse; [|exact IH].
  apply parse_float_go_nonneg in Hparse; [|done].
  destruct (bytes_nonneg _ Hparse).
  repeat case_match; try exact IH; by intros [= <-].
Qed.

(** X8.  The size read from the notes is never negative; it is read
    from the first note only, and there is none when the link has no
    note or the first note has no text. *)
Theorem extract_size_from_nfo_edges (nfo_text : string) (rest : list string) :
  extract_size_from_nfo [] = None
  ∧ extract_size_from_nfo ("" :: rest) = None
  ∧ extract_size_from_nfo (nfo_text :: rest) = extract_size_from_nfo [nfo_text]
  ∧ ∀ size, extract_size_from_nfo (nfo_text :: rest) = Some size → 0 ≤ size.
Proof.
  repeat split. intros size. unfold extract_size_from_nfo.
  destruct (truthy nfo_text); [|done]. apply size_from_patterns_nonneg.
Qed.

End normaliser_properties.

(** ** Agent adapter: package names *)

Section package_name_properties.
Import PyStr JDownloader Scenario.

Lemma list_ascii_of_string_app (a b : string) :
  list_ascii_of_string (a +:+ b)
  = list_ascii_of_string a ++ list_ascii_of_string b.
Proof.
  induction a as [|c a IH]; [done|].
  change (String c a +:+ b) with (String c (a +:+ b)). simpl. by rewrite IH.
Qed.

Lemma normalize_jd_name_char_clean (c : ascii) :
  Forall (λ c, c ∉ JD_CHAR_REPLACEMENTS.*1)
         (list_ascii_of_string (normalize_jd_name (String c EmptyString))).
Proof.
  apply (bool_decide_unpack _).
  destruct c as [[] [] [] [] [] [] [] []]; vm_compute; reflexivity.
Qed.

Lemma normalize_jd_name_char_fixed (c : ascii) :
  c ∉ JD_CHAR_REPLACEMENTS.*1 →
  normalize_jd_name (String c EmptyString) = String c EmptyString.
Proof.
  intros Hc%(bool_decide_pack _). revert Hc.
  destruct c as [[] [] [] [] [] [] [] []]; vm_compute; intros H;
    first [reflexivity | destruct H].
Qed.

(** X9.  A normalised package name holds none of the characters the
    table replaces, and the names that normalisation leaves unchanged
    are exactly those that hold none. *)
Theorem normalize_jd_name_fixed_points (name : string) :
  Forall (λ c, c ∉ JD_CHAR_REPLACEMENTS.*1)
         (list_ascii_of_string (normalize_jd_name name))
  ∧ (normalize_jd_name name = name
     ↔ Forall (λ c, c ∉ JD_CHAR_REPLACEMENTS.*1) (list_ascii_of_string name)).
Proof.
  assert (∀ s, Forall (λ c, c ∉ JD_CHAR_REPLACEMENTS.*1)
                 (list_ascii_of_string (normalize_jd_name s))) as Hclean.
  { induction s as [|c s IH]; [constructor|].
    change (String c s) with (String c EmptyString +:+ s).
    rewrite normalize_jd_name_app, list_ascii_of_string_app.
    apply Forall_app. split; [apply normalize_jd_name_char_clean|exact IH]. }
  split; [apply Hclean|]. split.
  - intros Heq. rewrite <- Heq. apply Hclean.
  - induction name as [|c s IH]; [done|]. simpl.
    intros [Hc Hs]%Forall_cons.
    change (String c s) with (String c EmptyString +:+ s).
    rewrite normalize_jd_name_app, normalize_jd_name_char_fixed by done.
    by rewrite IH.
Qed.

End package_name_properties.

(** ** Catalog client: session, search, probes *)

Section client_properties.
Import PyStr DarkiWorld Verifier Scenario.

Lemma search_results_media_type mt api_results :
  default [] (search_results (Some mt) api_results) = [].
Proof.
  induction api_results as [|item rest IH]; [done|]. simpl.
  destruct mt; simpl;
    repeat (case_match; simplify_eq/=; try done).
Qed.

(** X10.  A search restricted to a media type never returns a title,
    whatever the upstream answers: an item that the filter does not skip
    reaches the test on [MediaType.BOOK], which the enumeration lacks,
    and the handler of the exception returns the empty list.  So
    [search_with_links] with a media type returns no link, and asks for
    no listing. *)
Theorem search_by_media_type_is_empty (settings : Settings) (now : Z)
    (auth_answer : response auth_page)
    (search_answer : response (list search_item))
    (pages : Z → Z → nat → response links_page) (answers : Z → response lien)
    (media_type : MediaType) (season episode : option Z)
    (verify_links : bool) (max_links_per_title fuel : nat) (c : client) :
  let after := (ensure_authenticated settings now auth_answer c).2 in
  search settings now auth_answer search_answer (Some media_type) c
  = ([], after)
  ∧ search_with_links fuel settings now auth_answer search_answer pages answers
      (Some media_type) season episode verify_links max_links_per_title c
    = (Ok [], after).
Proof.
  cbv zeta.
  assert (search settings now auth_answer search_answer (Some media_type) c
          = ([], (ensure_authenticated settings now auth_answer c).2)) as Hs.
  { unfold search.
    destruct (ensure_authenticated settings now auth_answer c) as [ok c'].
    simpl. destruct ok; simpl; [|done].
    destruct search_answer as [|status_code [api_results|]]; try done;
      destruct (negb (status_code =? 200)); try done.
    by rewrite search_results_media_type. }
  split; [exact Hs|]. unfold search_with_links. by rewrite Hs.
Qed.

(** X11.  Once authentication has returned true, the client holds a
    session with an expiry later than the time of the call, and until
    that expiry every call returns true and leaves the client as it is,
    whatever the settings and the upstream; the expiry is one hour after
    the call when the call had to authenticate. *)
Theorem session_is_reused (settings : Settings) (now : Z)
    (auth_answer : response auth_page) (c c' : client) :
  ensure_authenticated settings now auth_answer c = (true, c') →
  ∃ expiry,
    _session_valid_until c' = Some expiry
    ∧ now < expiry
    ∧ (session_valid now c = false → expiry = now + one_hour)
    ∧ ∀ settings' now' auth_answer',
        now' < expiry →
        ensure_authenticated settings' now' auth_answer' c' = (true, c').
Proof.
  assert (∀ expiry c0, _session_valid_until c0 = Some expiry →
            ∀ settings' now' auth_answer', now' < expiry →
              ensure_authenticated settings' now' auth_answer' c0 = (true, c0))
    as Hreuse.
  { intros expiry c0 Hc0 settings' now' auth_answer' Hlt.
    unfold ensure_authenticated, session_valid. rewrite Hc0.
    by destruct (Z.ltb_spec now' expiry); [|lia]. }
  intros Hauth. unfold ensure_authenticated in Hauth.
  destruct (session_valid now c) eqn:Hvalid.
  - injection Hauth as <-. unfold session_valid in Hvalid.
    destruct (_session_valid_until c) as [expiry|] eqn:Hc; [|done].
    exists expiry. apply Z.ltb_lt in Hvalid.
    split; [done|]. split; [done|]. split; [done|]. by apply Hreuse.
  - destruct (negb _ || negb _); [done|].
    destruct auth_answer as [|status_code [page|]]; try done.
    case_match; [|done]. injection Hauth as <-.
    exists (now + one_hour). split; [done|]. split; [unfold one_hour; lia|].
    split; [done|]. by apply Hreuse.
Qed.

Lemma session_is_reused_witness :
  let settings :=
    {| darkiworld_base_url := "https://darkiworld.com";
       darkiworld_remember_cookie_name := "remember_web";
       darkiworld_remember_cookie_value := "token" |} in
  let page :=
    {| auth_cookies := [("darkiworld_session", "s"); ("XSRF-TOKEN", "x")];
       auth_metadata := None |} in
  let c' := (ensure_authenticated settings 0 (Resp 200 (Some page)) new_client).2 in
  ensure_authenticated unconfigured 3599999999 Raises c' = (true, c').
Proof.
  cbv zeta.
  destruct (session_is_reused
              {| darkiworld_base_url := "https://darkiworld.com";
                 darkiworld_remember_cookie_name := "remember_web";
                 darkiworld_remember_cookie_value := "token" |} 0
              (Resp 200 (Some {| auth_cookies :=
                                   [("darkiworld_session", "s"); ("XSRF-TOKEN", "x")];
                                 auth_metadata := None |}))
              new_client _ eq_refl) as (expiry & Hexp & _ & Hhour & Hreuse).
  apply Hreuse. rewrite (Hhour eq_refl). reflexivity.
Defined.

(** X12.  A probe answers (true, a record) or (false, none) and nothing
    else.  When it answers true, the record is not deleted, is active and
    carries a URL, and the resolution of the download URL on the same
    answers gives that URL with its domain corrected. *)
Theorem available_link_resolves (settings : Settings) (now : Z)
    (auth_answer : response auth_page) (answer : response lien) (c : client) :
  let probe := verify_link_availability settings now auth_answer answer c in
  match probe.1 with
  | (true, Some lien_obj) =>
      lien_deleted_at lien_obj = None
      ∧ lien_active lien_obj = Some 1
      ∧ ∃ url,
          or_else (lien_directDL lien_obj) (lien_lien lien_obj) = Some url
          ∧ truthy url = true
          ∧ get_download_url settings now auth_answer answer c
            = (Some (fix_domain url), probe.2)
  | (false, None) => True
  | _ => False
  end.
Proof.
  cbv zeta. unfold verify_link_availability, get_download_url.
  destruct (ensure_authenticated settings now auth_answer c) as [ok c'].
  destruct ok; simpl; [|done].
  destruct answer as [|status_code [lien_obj|]]; simpl; try done;
    destruct (negb (status_code =? 200)); simpl; try done.
  case_bool_decide as Hdel; simpl; [done|].
  case_bool_decide as Hact; simpl; [|done].
  destruct (or_else (lien_directDL lien_obj) (lien_lien lien_obj)) as [url|]
    eqn:Hurl; simpl; [|done].
  destruct (truthy url) eqn:Htruthy; simpl; [|done].
  split; [by destruct (lien_deleted_at lien_obj); [exfalso; eauto|]|].
  split; [done|]. exists url. by rewrite Htruthy.
Qed.

End client_properties.

(** ** Link verifier: the order of verification and the verification pass *)

Section verification_properties.
Import PyStr DarkiWorld Verifier Scenario.

Lemma diversify_unfold all_links :
  diversify all_links
  = representatives all_links
    ++ filter (λ link, link_id link ∉ link_id <$> representatives all_links)
              all_links.
Proof.
  unfold diversify. f_equal. apply list_filter_iff.
  intros link. by rewrite elem_of_list_to_set.
Qed.

Lemma representatives_in all_links r :
  r ∈ representatives all_links → r ∈ all_links.
Proof.
  intros (e & He & Hhead)%list_elem_of_omap.
  destruct (representative_of all_links e He) as (r' & Hhead' & _ & Hin & _).
  rewrite Hhead in Hhead'. by injection Hhead' as <-.
Qed.

Lemma NoDup_representatives all_links : NoDup (representatives all_links).
Proof.
  apply (NoDup_fmap_1 episode_of). unfold representatives.
  rewrite representatives_cover by done.
  unfold episodes. rewrite merge_sort_Permutation.
  apply NoDup_fst_map_to_list.
Qed.

Lemma NoDup_fmap_eq {A B} (f : A → B) (l : list A) x y :
  NoDup (f <$> l) → x ∈ l → y ∈ l → f x = f y → x = y.
Proof.
  induction l as [|a l IH]; intros Hnd Hx Hy Hf; [by apply elem_of_nil in Hx|].
  rewrite fmap_cons in Hnd. apply NoDup_cons in Hnd as [Ha Hnd].
  apply elem_of_cons in Hx as [->|Hx]; apply elem_of_cons in Hy as [->|Hy].
  - done.
  - exfalso. apply Ha. rewrite Hf. by apply list_elem_of_fmap_2.
  - exfalso. apply Ha. rewrite <- Hf. by apply list_elem_of_fmap_2.
  - by apply IH.
Qed.

Lemma diversify_in all_links link :
  link ∈ diversify all_links → link ∈ all_links.
Proof.
  rewrite diversify_unfold, elem_of_app, list_elem_of_filter.
  intros [Hr|[_ ?]]; [by apply representatives_in|done].
Qed.

Lemma links_to_verify_in max_links all_links link :
  link ∈ links_to_verify max_links all_links → link ∈ all_links.
Proof.
  intros Hin. apply diversify_in. unfold links_to_verify in Hin.
  by apply (subseteq_take max_links).
Qed.

Lemma links_to_verify_nil max_links : links_to_verify max_links [] = [].
Proof.
  destruct (links_to_verify max_links []) as [|link rest] eqn:H; [done|].
  assert (link ∈ links_to_verify max_links []) as Hin by (rewrite H; left).
  apply links_to_verify_in in Hin. by apply elem_of_nil in Hin.
Qed.

Lemma omap_length_le {A B} (f : A → option B) (l : list A) :
  (length (omap f l) ≤ length l)%nat.
Proof.
  induction l as [|x l IH]; [done|].
  change (omap f (x :: l)) with
    (match f x with Some y => y :: omap f l | None => omap f l end).
  destruct (f x); simpl; lia.
Qed.

Lemma available_probe settings now auth_answer answer c :
  match (verify_link_availability settings now auth_answer answer c).1 with
  | (true, Some lien_obj) =>
      ∃ url, or_else (lien_directDL lien_obj) (lien_lien lien_obj) = Some url
             ∧ truthy url = true
  | (false, None) => True
  | _ => False
  end.
Proof.
  unfold verify_link_availability.
  destruct (ensure_authenticated settings now auth_answer c) as [ok c'].
  destruct ok; simpl; [|done].
  destruct answer as [|status_code [lien_obj|]]; simpl; try done;
    destruct (negb (status_code =? 200)); simpl; try done.
  case_bool_decide; simpl; [done|].
  case_bool_decide; simpl; [|done].
  destruct (or_else (lien_directDL lien_obj) (lien_lien lien_obj)) as [url|]
    eqn:Hurl; simpl; [|done].
  destruct (truthy url) eqn:Htruthy; simpl; [|done]. eauto.
Qed.

(** X13.  When the identifiers of the links listed are distinct, the
    order of verification is a rearrangement of the listing: no link is
    dropped and none is taken twice. *)
Theorem diversify_permutation (all_links : list Link) :
  NoDup (link_id <$> all_links) →
  diversify all_links ≡ₚ all_links.
Proof.
  intros Hids. rewrite diversify_unfold.
  set (reps := representatives all_links).
  assert (NoDup all_links) as Hnd by (by apply (NoDup_fmap_1 link_id)).
  apply NoDup_Permutation; [|done|].
  - apply NoDup_app. split; [apply NoDup_representatives|]. split.
    + intros r Hr [Hout _]%list_elem_of_filter. apply Hout.
      by apply list_elem_of_fmap_2.
    + by apply NoDup_filter.
  - intros link. rewrite elem_of_app, list_elem_of_filter. split.
    + intros [Hr|[_ ?]]; [by apply representatives_in|done].
    + intros Hin. destruct (decide (link ∈ reps)) as [|Hnot]; [by left|].
      right. split; [|done].
      intros (r & Hid & Hr)%list_elem_of_fmap. apply Hnot.
      assert (link = r) as ->; [|done].
      apply (NoDup_fmap_eq link_id all_links); try done.
      by apply representatives_in.
Qed.

Lemma diversify_permutation_witness :
  let listing :=
    [a_link 1 (Some 1) "HDLight 720p" "uptobox";
     a_link 2 (Some 1) "HDLight 1080p" "1fichier";
     a_link 3 (Some 2) "HDLight 1080p" "uptobox";
     a_link 4 None "HDLight 1080p" "send.now"] in
  NoDup (link_id <$> listing)
  ∧ diversify listing ≡ₚ listing
  ∧ link_id <$> diversify listing = [Some 4; Some 2; Some 3; Some 1].
Proof.
  cbv zeta.
  assert (NoDup (link_id <$>
            [a_link 1 (Some 1) "HDLight 720p" "uptobox";
             a_link 2 (Some 1) "HDLight 1080p" "1fichier";
             a_link 3 (Some 2) "HDLight 1080p" "uptobox";
             a_link 4 None "HDLight 1080p" "send.now"])) as Hids.
  { apply (bool_decide_unpack _). vm_compute. reflexivity. }
  split; [exact Hids|]. split; [exact (diversify_permutation _ Hids)|].
  vm_compute. reflexivity.
Defined.

(** X14.  Whatever the listing, every link of the order of verification
    is a link of the listing; every identifier of the listing is the
    identifier of a link of the order; the order is not longer than the
    listing, and the links taken for verification are at most
    [max_links]. *)
Theorem diversify_keeps_every_id (max_links : nat) (all_links : list Link) :
  (∀ link, link ∈ diversify all_links → link ∈ all_links)
  ∧ (∀ link, link ∈ all_links →
             link_id link ∈ link_id <$> diversify all_links)
  ∧ (length (diversify all_links) ≤ length all_links)%nat
  ∧ (length (links_to_verify max_links all_links) ≤ max_links)%nat
  ∧ (∀ link, link ∈ links_to_verify max_links all_links → link ∈ all_links).
Proof.
  split; [apply diversify_in|]. split; [|split; [|split]].
  - intros link Hin. rewrite diversify_unfold, fmap_app, elem_of_app.
    destruct (decide (link_id link ∈ link_id <$> representatives all_links))
      as [|Hnot]; [by left|].
    right. apply list_elem_of_fmap_2. by apply list_elem_of_filter.
  - rewrite diversify_unfold.
    set (P := λ link : Link,
           link_id link ∉ link_id <$> representatives all_links).
    rewrite <- (Permutation_length (filter_app_complement P all_links)).
    rewrite !length_app.
    assert (representatives all_links ⊆+ filter (λ x, ¬ P x) all_links) as Hle.
    { apply NoDup_submseteq; [apply NoDup_representatives|].
      intros r Hr. apply list_elem_of_filter.
      split; [|by apply representatives_in].
      intros Hout. apply Hout. by apply list_elem_of_fmap_2. }
    apply submseteq_length in Hle. lia.
  - unfold links_to_verify. rewrite length_take. lia.
  - apply links_to_verify_in.
Qed.

Lemma verify_single_client settings now auth_answer answers link c :
  session_valid now c = true →
  (verify_single settings now auth_answer answers link c).2 = c.
Proof.
  intros Hvalid. unfold verify_single, verify_link_availability,
    ensure_authenticated. rewrite Hvalid. simpl.
  repeat (case_match; simplify_eq/=; try done).
Qed.

Lemma verify_batch_valid settings now auth_answer answers batch c :
  session_valid now c = true →
  verify_batch settings now auth_answer answers batch c
  = (omap (λ link, (verify_single settings now auth_answer answers link c).1)
          batch, c).
Proof.
  intros Hvalid. induction batch as [|link batch IH]; [done|].
  simpl verify_batch.
  pose proof (verify_single_client settings now auth_answer answers link c
                Hvalid) as Hc.
  destruct (verify_single settings now auth_answer answers link c)
    as [r c'] eqn:Hsingle.
  simpl in Hc. subst c'. rewrite IH.
  change (omap ?f (link :: batch)) with
    (match f link with Some y => y :: omap f batch | None => omap f batch end).
  cbv beta. by rewrite Hsingle.
Qed.

Lemma verify_batches_valid settings now auth_answer answers bs c :
  session_valid now c = true →
  verify_batches settings now auth_answer answers bs c
  = (omap (λ link, (verify_single settings now auth_answer answers link c).1)
          (concat bs), c).
Proof.
  intros Hvalid. induction bs as [|batch bs IH]; [done|].
  simpl verify_batches. rewrite verify_batch_valid by done.
  rewrite IH. simpl concat. by rewrite omap_app.
Qed.

Lemma concat_batches fuel batch_size links :
  (0 < batch_size)%nat → (length links ≤ fuel)%nat →
  concat (batches fuel batch_size links) = links.
Proof.
  intros Hpos. revert links.
  induction fuel as [|fuel IH]; intros links Hlen.
  - destruct links; [done|simpl in Hlen; lia].
  - destruct links as [|link links]; [done|].
    change (batches (S fuel) batch_size (link :: links))
      with (take batch_size (link :: links)
            :: batches fuel batch_size (drop batch_size (link :: links))).
    simpl concat. rewrite IH; [apply take_drop|].
    rewrite length_drop. simpl in *. lia.
Qed.

Lemma batches_length fuel batch_size links :
  Forall (λ batch, (length batch ≤ batch_size)%nat)
         (batches fuel batch_size links).
Proof.
  revert links. induction fuel as [|fuel IH]; intros links; [constructor|].
  destruct links as [|link links]; [constructor|].
  change (batches (S fuel) batch_size (link :: links))
    with (take batch_size (link :: links)
          :: batches fuel batch_size (drop batch_size (link :: links))).
  constructor; [|apply IH]. rewrite length_take. lia.
Qed.

Lemma verify_single_Some settings now auth_answer answers link c r :
  (verify_single settings now auth_answer answers link c).1 = Some r →
  id_truthy (link_id link) = true
  ∧ ∃ url, truthy url = true
           ∧ r = set_download_url (Some (fix_domain url)) link.
Proof.
  unfold verify_single, id_truthy.
  destruct (link_id link) as [n|]; [|done].
  destruct (n =? 0); [done|].
  pose proof (available_probe settings now auth_answer (answers n) c) as Hp.
  destruct (verify_link_availability settings now auth_answer (answers n) c)
    as [[ok info] c'].
  simpl in Hp. destruct ok, info as [lien_obj|]; try done.
  destruct Hp as (url & Hurl & Htruthy). rewrite Hurl. simpl.
  intros [= <-]. eauto.
Qed.

(** X15.  With a session that is valid and fuel for the fifty pages of
    the listing, the verification pass returns the links of the order of
    verification that pass their probe, in that order, each with the
    download URL of its probe after the domain correction; the result
    does not depend on the batch size, a batch is never longer than the
    batch size, and the client is left as it was.  A batch size of zero
    raises as soon as the listing is not empty. *)
Theorem verification_pass (fuel : nat) (settings : Settings) (now : Z)
    (auth_answer : response auth_page) (pages : nat → response links_page)
    (answers : Z → response lien) (title_id : Z)
    (max_links batch_size : nat) (c : client) :
  session_valid now c = true →
  (max_pages ≤ fuel)%nat →
  let probe link :=
    (verify_single settings now auth_answer answers link c).1 in
  ∃ all_links,
    get_title_links fuel settings now auth_answer pages title_id c
    = (Some all_links, c)
    ∧ get_title_links_verified fuel settings now auth_answer pages answers
        title_id max_links batch_size c
      = (match batch_size, all_links with
         | O, _ :: _ => ValueError
         | _, _ => Ok (omap probe (links_to_verify max_links all_links))
         end, c)
    ∧ Forall (λ batch, (length batch ≤ batch_size)%nat)
        (batches (length (links_to_verify max_links all_links)) batch_size
           (links_to_verify max_links all_links))
    ∧ (length (omap probe (links_to_verify max_links all_links))
       ≤ max_links)%nat
    ∧ ∀ r, r ∈ omap probe (links_to_verify max_links all_links) →
        ∃ link url,
          link ∈ all_links
          ∧ id_truthy (link_id link) = true
          ∧ truthy url = true
          ∧ r = set_download_url (Some (fix_domain url)) link.
Proof.
  intros Hvalid Hfuel probe.
  assert (∃ all_links,
            get_title_links fuel settings now auth_answer pages title_id c
            = (Some all_links, c)) as [all_links Hlist].
  { unfold get_title_links, ensure_authenticated. rewrite Hvalid. simpl.
    rewrite (links_loop_from c title_id pages 49 1 fuel no_title_info [])
      by (done || unfold max_pages in *; lia).
    eauto. }
  exists all_links. split; [exact Hlist|].
  split; [|split; [apply batches_length|split]].
  - unfold get_title_links_verified. rewrite Hlist.
    destruct all_links as [|link all_links].
    { rewrite links_to_verify_nil. by destruct batch_size. }
    destruct batch_size as [|n]; [done|].
    rewrite verify_batches_valid by done.
    by rewrite concat_batches by lia.
  - etrans; [apply omap_length_le|].
    unfold links_to_verify. rewrite length_take. lia.
  - intros r (link & Hin & Hprobe)%list_elem_of_omap.
    apply verify_single_Some in Hprobe as (Hid & url & Htruthy & ->).
    exists link, url. split; [by eapply links_to_verify_in|]. done.
Qed.

End verification_properties.

(** ** Download manager: the store *)

Section manager_properties.
Import PyStr JDownloader Downloads Manager Scenario.

Lemma assoc_None {V} k (s : list (string * V)) :
  assoc k s = None ↔ k ∉ s.*1.
Proof.
  induction s as [|[k' v] s IH]; simpl.
  - split; [intros _ H; by apply elem_of_nil in H|done].
  - rewrite not_elem_of_cons. destruct (String.eqb_spec k k') as [->|Hne].
    + split; [done|]. by intros [? _].
    + rewrite IH. split; [done|]. by intros [_ ?].
Qed.

Lemma assoc_NoDup {V} k v (s : list (string * V)) :
  NoDup s.*1 → (k, v) ∈ s → assoc k s = Some v.
Proof.
  induction s as [|[k' v'] s IH]; simpl; intros Hnd Hin.
  - by apply elem_of_nil in Hin.
  - apply NoDup_cons in Hnd as [Hk' Hnd].
    apply elem_of_cons in Hin as [[= -> ->]|Hin].
    + by rewrite String.eqb_refl.
    + destruct (String.eqb_spec k k') as [->|Hne]; [|by apply IH].
      exfalso. apply Hk'. apply list_elem_of_fmap. by exists (k', v).
Qed.

Lemma to_map_lookup (s : list (string * Download)) k :
  to_map s !! k = assoc k s.
Proof.
  unfold to_map. induction s as [|[k' v] s IH]; simpl; [done|].
  destruct (String.eqb_spec k k') as [->|Hne].
  - by rewrite lookup_insert_eq.
  - by rewrite lookup_insert_ne.
Qed.

Lemma assoc_od_del k k' (s : list (string * Download)) :
  assoc k' (od_del k s) = if decide (k' = k) then None else assoc k' s.
Proof.
  unfold od_del. induction s as [|[k0 v] s IH]; simpl.
  - by case_decide.
  - rewrite filter_cons. simpl. destruct (decide (k0 ≠ k)) as [Hne|Heq]; simpl.
    + rewrite IH. destruct (String.eqb_spec k' k0) as [->|?]; [|done].
      by rewrite decide_False.
    + apply dec_stable in Heq. subst k0. rewrite IH.
      destruct (String.eqb_spec k' k) as [->|?]; [by case_decide|done].
Qed.

Lemma od_del_keys k (s : list (string * Download)) :
  (od_del k s).*1 = filter (λ k', k' ≠ k) s.*1.
Proof.
  unfold od_del. induction s as [|[k0 v] s IH]; [done|].
  rewrite fmap_cons, !filter_cons. simpl.
  destruct (decide (k0 ≠ k)); simpl; rewrite <- IH; done.
Qed.

Lemma filter_all {A} (P : A → Prop) `{∀ x, Decision (P x)} (l : list A) :
  (∀ x, x ∈ l → P x) → filter P l = l.
Proof.
  induction l as [|a l IH]; intros Hall; [done|].
  rewrite filter_cons_True by (apply Hall; left).
  f_equal. apply IH. intros x Hx. apply Hall. by right.
Qed.

Lemma od_del_length k (s : list (string * Download)) :
  NoDup s.*1 → k ∈ s.*1 → S (length (od_del k s)) = length s.
Proof.
  unfold od_del. induction s as [|[k0 v] s IH]; simpl; intros Hnd Hin.
  - by apply elem_of_nil in Hin.
  - apply NoDup_cons in Hnd as [Hk0 Hnd]. rewrite filter_cons. simpl.
    destruct (decide (k0 ≠ k)) as [Hne|Heq]; simpl.
    + f_equal. apply IH; [done|].
      apply elem_of_cons in Hin as [->|?]; done.
    + apply dec_stable in Heq. subst k0. f_equal.
      f_equal. apply filter_all.
      intros [k1 v1] Hin1. simpl. intros ->. apply Hk0.
      apply list_elem_of_fmap. by exists (k, v1).
Qed.

Lemma well_formed_od_del k s : well_formed s → well_formed (od_del k s).
Proof.
  intros [Hnd Hid]. split.
  - rewrite od_del_keys. by apply NoDup_filter.
  - unfold od_del. rewrite Forall_forall in Hid |- *.
    intros kv [_ Hin]%list_elem_of_filter. by apply Hid.
Qed.

Lemma od_mutate_keys k f s : (od_mutate k f s).*1 = s.*1.
Proof.
  unfold od_mutate. induction s as [|[k0 v] s IH]; [done|].
  rewrite !fmap_cons, IH. simpl. by destruct (String.eqb k0 k).
Qed.

Lemma assoc_od_mutate k f s k' :
  assoc k' (od_mutate k f s)
  = if decide (k' = k) then f <$> assoc k s else assoc k' s.
Proof.
  unfold od_mutate. induction s as [|[k0 v] s IH]; [simpl; by case_decide|].
  rewrite fmap_cons. cbn [fst snd].
  destruct (String.eqb_spec k0 k) as [->|Hne]; cbn [assoc].
  - destruct (String.eqb_spec k' k) as [->|Hne'].
    + rewrite decide_True by done. by rewrite String.eqb_refl.
    + rewrite IH. by rewrite !decide_False by done.
  - destruct (String.eqb_spec k' k0) as [->|Hne'].
    + by rewrite decide_False by done.
    + rewrite IH. case_decide as Hk; [|done]. subst k'.
      by destruct (String.eqb_spec k k0).
Qed.

Lemma well_formed_od_mutate k f s :
  (∀ d, id d = k → id (f d) = k) →
  well_formed s → well_formed (od_mutate k f s).
Proof.
  intros Hf [Hnd Hid]. split; [by rewrite od_mutate_keys|].
  unfold od_mutate. apply Forall_fmap. eapply Forall_impl; [exact Hid|].
  intros [k0 v] Hkv. simpl in *.
  destruct (String.eqb_spec k0 k) as [->|?]; simpl; [|done].
  by apply Hf.
Qed.

Lemma find_split {A} (p : A → bool) (l : list A) :
  match List.find p l with
  | Some x =>
      p x = true
      ∧ ∃ before after,
          l = before ++ x :: after ∧ ∀ y, y ∈ before → p y = false
  | None => ∀ y, y ∈ l → p y = false
  end.
Proof.
  induction l as [|a l IH]; simpl.
  - intros y Hy. by apply elem_of_nil in Hy.
  - destruct (p a) eqn:Hpa.
    + split; [done|]. exists [], l. split; [done|].
      intros y Hy. by apply elem_of_nil in Hy.
    + destruct (List.find p l) as [x|].
      * destruct IH as (Hpx & before & after & -> & Hbefore).
        split; [done|]. exists (a :: before), after. split; [done|].
        intros y [->|Hy]%elem_of_cons; [done|by apply Hbefore].
      * intros y [->|Hy]%elem_of_cons; [done|by apply IH].
Qed.

Lemma find_values (p : Download → bool) (s : list (string * Download)) :
  List.find p s.*2 = snd <$> List.find (λ kv, p kv.2) s.
Proof.
  induction s as [|[k v] s IH]; simpl; [done|].
  destruct (p v); [done|]. exact IH.
Qed.

Lemma find_elem {A} (p : A → bool) (l : list A) x :
  List.find p l = Some x → x ∈ l ∧ p x = true.
Proof.
  intros H. pose proof (find_split p l) as Hs. rewrite H in Hs.
  destruct Hs as (Hp & before & after & -> & _). split; [|done].
  apply elem_of_app. right. left.
Qed.

Lemma well_formed_elem s k d :
  well_formed s → (k, d) ∈ s → id d = k.
Proof.
  intros [_ Hid] Hin. rewrite Forall_forall in Hid. by apply (Hid (k, d)).
Qed.

(** The key of the entry found is the identifier of the download found. *)
Lemma found_key_get_download download_id s :
  well_formed s →
  found_key download_id s = id <$> get_download download_id s
  ∧ ∀ dl, get_download download_id s = Some dl → assoc (id dl) s = Some dl.
Proof.
  intros Hwf. unfold found_key, get_download, od_mem.
  destruct (assoc download_id s) as [dl|] eqn:Ha.
  - rewrite bool_decide_true by eauto. simpl.
    pose proof (well_formed_elem s download_id dl Hwf
                  (assoc_Some_elem _ _ _ Ha)) as Hid.
    split; [by rewrite Hid|]. intros dl' [= <-]. by rewrite Hid.
  - rewrite bool_decide_false by (by intros [? ?]).
    rewrite find_values.
    destruct (List.find _ s) as [[k dl]|] eqn:Hfind; simpl; [|done].
    apply find_elem in Hfind as [Hin _].
    pose proof (well_formed_elem s k dl Hwf Hin) as Hid.
    split; [by rewrite Hid|]. intros dl' [= <-]. rewrite Hid.
    destruct Hwf as [Hnd _]. by apply assoc_NoDup.
Qed.

(** X16.  A download is looked up by its identifier first, and when no
    entry has that key, by its queue identifier: the first download of
    the store, in the order of insertion, whose queue identifier is the
    one asked for.  The lookup gives nothing exactly when the identifier
    is neither a key nor the queue identifier of a download. *)
Theorem get_download_by_id_then_nzo_id (download_id : string)
    (s : list (string * Download)) :
  match assoc download_id s with
  | Some dl => get_download download_id s = Some dl
  | None =>
      match get_download download_id s with
      | Some dl =>
          nzo_id dl = download_id
          ∧ ∃ before after,
              s.*2 = before ++ dl :: after
              ∧ ∀ dl', dl' ∈ before → nzo_id dl' ≠ download_id
      | None => ∀ dl, dl ∈ s.*2 → nzo_id dl ≠ download_id
      end
  end
  ∧ (get_download download_id s = None
     ↔ (download_id ∉ s.*1) ∧ (∀ dl, dl ∈ s.*2 → nzo_id dl ≠ download_id)).
Proof.
  assert (∀ dl : Download,
            String.eqb (nzo_id dl) download_id = false
            ↔ nzo_id dl ≠ download_id) as Hneq.
  { intros dl. by destruct (String.eqb_spec (nzo_id dl) download_id). }
  unfold get_download.
  pose proof (find_split (λ dl, String.eqb (nzo_id dl) download_id) s.*2) as Hs.
  destruct (assoc download_id s) as [dl|] eqn:Ha.
  - split; [done|]. split; [done|]. intros [Hk _].
    by apply assoc_None in Hk; rewrite Ha in Hk.
  - apply assoc_None in Ha.
    destruct (List.find _ s.*2) as [dl|].
    + destruct Hs as (Hp & before & after & Hsplit & Hbefore).
      apply String.eqb_eq in Hp. split.
      * split; [done|]. exists before, after. split; [done|].
        intros dl' Hin. apply Hneq. by apply Hbefore.
      * split; [done|]. intros [_ Hall]. exfalso.
        apply (Hall dl); [|done]. rewrite Hsplit.
        apply elem_of_app. right. left.
    + split; [|split; [intros _; split; [done|]|done]];
        intros dl Hin; apply Hneq; by apply Hs.
Qed.

(** X17.  In a store where every key is the identifier of its download,
    [delete_download] and [remove_download] do the same: they remove the
    entry of the download that [get_download] finds, and no other, and
    answer true; when it finds none they leave the store as it is and
    answer false. *)
Theorem delete_download_removes_found (download_id : string)
    (s : list (string * Download)) :
  well_formed s →
  remove_download download_id s = Some (delete_download download_id s)
  ∧ match get_download download_id s with
    | Some dl =>
        delete_download download_id s = (true, od_del (id dl) s)
        ∧ assoc (id dl) (od_del (id dl) s) = None
        ∧ (∀ k, k ≠ id dl → assoc k (od_del (id dl) s) = assoc k s)
        ∧ S (length (od_del (id dl) s)) = length s
    | None => delete_download download_id s = (false, s)
    end
  ∧ well_formed (delete_download download_id s).2.
Proof.
  intros Hwf.
  destruct (found_key_get_download download_id s Hwf) as [Hkey Hfound].
  assert (delete_download download_id s
          = match found_key download_id s with
            | Some k => (true, od_del k s)
            | None => (false, s)
            end) as Hdel.
  { unfold delete_download, found_key.
    destruct (od_mem download_id s); [done|].
    by destruct (List.find _ s) as [[k dl]|]. }
  rewrite Hdel, Hkey. unfold remove_download.
  destruct (get_download download_id s) as [dl|]; simpl; [|done].
  specialize (Hfound dl eq_refl).
  unfold od_mem. rewrite bool_decide_true by (rewrite Hfound; eauto).
  split; [done|]. split; [|by apply well_formed_od_del].
  split; [done|]. split; [by rewrite assoc_od_del, decide_True|].
  split; [intros k Hk; by rewrite assoc_od_del, decide_False|].
  apply od_del_length; [apply Hwf|].
  apply list_elem_of_fmap. exists (id dl, dl). split; [done|].
  by apply assoc_Some_elem.
Qed.

Lemma values_to_map (s : list (string * Download)) k d :
  assoc k s = Some d → d ∈ (map_to_list (to_map s)).*2.
Proof.
  intros Ha. apply list_elem_of_fmap. exists (k, d). split; [done|].
  apply elem_of_map_to_list. by rewrite to_map_lookup.
Qed.

Lemma od_mutate_found download_id f s dl :
  (∀ d, id (f d) = id d) →
  well_formed s →
  get_download download_id s = Some dl →
  let s' := od_mutate (id dl) f s in
  found_key download_id s = Some (id dl)
  ∧ assoc (id dl) s' = Some (f dl)
  ∧ (∀ k, k ≠ id dl → assoc k s' = assoc k s)
  ∧ s'.*1 = s.*1
  ∧ well_formed s'
  ∧ f dl ∈ (map_to_list (to_map s')).*2.
Proof.
  intros Hf Hwf Hget s'.
  destruct (found_key_get_download download_id s Hwf) as [Hkey Hfound].
  rewrite Hget in Hkey. specialize (Hfound dl Hget).
  assert (assoc (id dl) s' = Some (f dl)) as Hs'.
  { unfold s'. by rewrite assoc_od_mutate, decide_True, Hfound. }
  split; [done|]. split; [done|]. split; [|split; [|split]].
  - intros k Hk. unfold s'. by rewrite assoc_od_mutate, decide_False.
  - apply od_mutate_keys.
  - apply well_formed_od_mutate; [|done]. intros d <-. apply Hf.
  - by eapply values_to_map.
Qed.

(** X18.  [mark_completed] and [mark_failed] change the download that
    [get_download] finds and no other entry: it becomes completed, with
    progress 100 and the completion time, or failed with the error
    message; the keys of the store and their order are kept, the
    download is then in the history and not in the queue, whatever the
    category asked for the queue.  When [get_download] finds nothing the
    store is left as it is and the answer is false. *)
Theorem mark_changes_found_download (download_id error : string) (now : Z)
    (s : list (string * Download)) :
  well_formed s →
  match get_download download_id s with
  | Some dl =>
      let completed :=
        set_progress full (set_completed_at (Some now)
                             (set_status COMPLETED dl)) in
      let failed := set_error_message (Some error) (set_status FAILED dl) in
      ∀ mark result,
        (mark = mark_completed download_id now s ∧ result = completed)
        ∨ (mark = mark_failed download_id error s ∧ result = failed) →
        mark.1 = true
        ∧ assoc (id dl) mark.2 = Some result
        ∧ (∀ k, k ≠ id dl → assoc k mark.2 = assoc k s)
        ∧ mark.2.*1 = s.*1
        ∧ well_formed mark.2
        ∧ result ∈ get_completed_downloads None (to_map mark.2)
        ∧ ∀ category, result ∉ get_active_downloads category (to_map mark.2)
  | None =>
      mark_completed download_id now s = (false, s)
      ∧ mark_failed download_id error s = (false, s)
  end.
Proof.
  intros Hwf.
  destruct (get_download download_id s) as [dl|] eqn:Hget.
  - intros completed failed mark result Hmark.
    assert (∃ f, (∀ d, id (f d) = id d)
                 ∧ mark = (true, od_mutate (id dl) f s)
                 ∧ result = f dl
                 ∧ status result ∈ completed_statuses) as
      (f & Hf & -> & -> & Hst).
    { pose proof (od_mutate_found download_id (λ d, d) s dl
                    (λ _, eq_refl) Hwf Hget) as (Hkey & _).
      destruct Hmark as [[-> ->]|[-> ->]].
      - eexists. split; [|split; [|split]].
        2: { unfold mark_completed. rewrite Hkey. reflexivity. }
        + done.
        + done.
        + simpl. apply elem_of_cons. by left.
      - eexists. split; [|split; [|split]].
        2: { unfold mark_failed. rewrite Hkey. reflexivity. }
        + done.
        + done.
        + simpl. apply elem_of_cons. right. apply elem_of_cons. by left. }
    destruct (od_mutate_found download_id f s dl Hf Hwf Hget)
      as (_ & Hnew & Hother & Hkeys & Hwf' & Hin).
    simpl. split; [done|]. split; [done|]. split; [done|].
    split; [done|]. split; [done|]. split.
    + unfold get_completed_downloads, get_downloads_by_category. simpl.
      by apply list_elem_of_filter.
    + intros category. unfold get_active_downloads.
      intros [Hact _]%list_elem_of_filter.
      revert Hst Hact. unfold completed_statuses, active_statuses.
      destruct (status (f dl)); rewrite !elem_of_cons, !elem_of_nil;
        intuition discriminate.
  - destruct (found_key_get_download download_id s Hwf) as [Hkey _].
    rewrite Hget in Hkey. unfold mark_completed, mark_failed.
    by rewrite Hkey.
Qed.

(** X19.  [create_download] registers a queued download under the
    identifier drawn for it: the lookup by that identifier finds it, it
    is in the queue, every other key keeps its download, and a fresh
    identifier is added after the keys of the store. *)
Theorem create_download_registers (new_id : string) (now : Z) (hms : string)
    (title category : string) (links : list string) (source_url : string)
    (s : list (string * Download)) :
  let r := create_download new_id now hms title category links source_url s in
  id r.1 = new_id
  ∧ status r.1 = QUEUED
  ∧ jd_uuid r.1 = None
  ∧ jd_package_name r.1 = None
  ∧ get_download new_id r.2 = Some r.1
  ∧ (∀ k, k ≠ new_id → assoc k r.2 = assoc k s)
  ∧ r.2.*1 = (if od_mem new_id s then s.*1 else s.*1 ++ [new_id])
  ∧ (well_formed s → well_formed r.2)
  ∧ r.1 ∈ get_active_downloads None (to_map r.2).
Proof.
  cbv zeta. unfold create_download. simpl fst. simpl snd.
  set (d := new_download new_id now hms title category links source_url).
  change (id d) with new_id.
  assert (od_set new_id d s
          = if od_mem new_id s then od_mutate new_id (λ _, d) s
            else s ++ [(new_id, d)]) as Hset by done.
  assert (assoc new_id (od_set new_id d s) = Some d) as Hnew.
  { rewrite Hset. unfold od_mem. case_bool_decide as Hmem.
    - rewrite assoc_od_mutate, decide_True by done.
      by destruct Hmem as [? ->].
    - assert (assoc new_id s = None) as Hnone
        by (destruct (assoc new_id s); [exfalso; eauto|done]).
      clear Hmem Hset. induction s as [|[k v] s IH]; simpl in *.
      + by rewrite String.eqb_refl.
      + destruct (String.eqb new_id k); [done|by apply IH]. }
  split; [done|]. split; [done|]. split; [done|]. split; [done|].
  split; [unfold get_download; by rewrite Hnew|].
  split; [|split; [|split]].
  - intros k Hk. rewrite Hset. destruct (od_mem new_id s).
    + by rewrite assoc_od_mutate, decide_False.
    + clear Hset Hnew. induction s as [|[k' v] s IH]; simpl.
      * by destruct (String.eqb_spec k new_id).
      * by rewrite IH.
  - rewrite Hset. destruct (od_mem new_id s); [apply od_mutate_keys|].
    by rewrite fmap_app.
  - intros Hwf. rewrite Hset. unfold od_mem. case_bool_decide as Hmem.
    + by apply well_formed_od_mutate.
    + destruct Hwf as [Hnd Hid]. split.
      * rewrite fmap_app. apply NoDup_app. split; [done|]. split.
        -- intros k Hk [->|H]%elem_of_cons; [|by apply elem_of_nil in H].
           apply Hmem. destruct (assoc new_id s) eqn:Ha; [eauto|].
           by apply assoc_None in Ha.
        -- apply NoDup_singleton.
      * apply Forall_app. split; [done|]. by constructor.
  - unfold get_active_downloads, get_downloads_by_category. simpl.
    apply list_elem_of_filter. split.
    + apply elem_of_cons. by left.
    + by eapply values_to_map.
Qed.

End manager_properties.

(** ** Download manager: polls and cleanup *)

Section poll_properties.
Import PyStr JDownloader Downloads Manager Scenario.

Lemma lookup_status_frame (d : Download) (ag : agent) :
  let r := lookup_status d ag in
  (r.1.2 = d ∨ ∃ u, r.1.2 = set_jd_uuid (Some u) d)
  ∧ ∃ n, (n ≤ 2)%nat ∧ r.2 = queried n ag.
Proof.
  cbv zeta. rewrite lookup_status_unfold. cbv zeta.
  repeat case_match; simpl; (split; [eauto|]);
    first [by exists 0%nat; split; [lia|]
          |by exists 1%nat; split; [lia|]
          |by exists 2%nat; split; [lia|]].
Qed.

Lemma apply_status_frame now st (d : Download) (ag : agent) :
  let r := apply_status now st d ag in
  (id r.1 = id d ∧ nzo_id r.1 = nzo_id d ∧ title r.1 = title d
   ∧ category r.1 = category d ∧ source_url r.1 = source_url d
   ∧ download_links r.1 = download_links d ∧ created_at r.1 = created_at d
   ∧ jd_package_name r.1 = jd_package_name d
   ∧ error_message r.1 = error_message d ∧ jd_uuid r.1 = jd_uuid d)
  ∧ (completed_at r.1 = completed_at d
     ∨ (status r.1 = COMPLETED ∧ completed_at r.1 = Some now))
  ∧ (r.2 = ag ∨ ∃ u, r.2 = (get_package_files u ag).2).
Proof.
  unfold apply_status, mbind, agent_bind, mret, agent_ret. cbv zeta.
  destruct (st_finished st); [|repeat case_match; simpl; auto 20].
  destruct (truthy (st_save_to st)) eqn:Hsave;
    rewrite ?andb_false_r; simpl;
    repeat case_match; simplify_eq/=; eauto 20.
Qed.

Lemma apply_status_status now st (d : Download) (ag : agent) :
  let d' := (apply_status now st d ag).1 in
  status d' = status d
  ∨ status d' ∈ [COMPLETED; DOWNLOADING; EXTRACTING; QUEUED].
Proof.
  pose proof (apply_status_spec now st d ag) as H. cbv zeta in *.
  repeat case_match; destruct_and?;
    first [by left
          |right; match goal with H : status _ = _ |- _ => rewrite H end;
           repeat first [by apply list_elem_of_here | apply list_elem_of_further]].
Qed.

(** A download with no identifier and no package name is not polled. *)
Lemma update_progress_untracked now (d : Download) (ag : agent) :
  opt_truthy (jd_uuid d) = false →
  opt_truthy (jd_package_name d) = false →
  update_progress now d ag = (d, ag).
Proof.
  intros Hu Hn. rewrite update_progress_unfold. cbv zeta.
  rewrite lookup_status_unfold. cbv zeta. by rewrite Hu, Hn.
Qed.

Lemma update_progress_calls now (d : Download) (ag : agent) :
  let r := update_progress now d ag in
  add_answers r.2 = add_answers ag
  ∧ ∃ extra, calls r.2 = calls ag ++ extra
             ∧ (length extra ≤ 3)%nat
             ∧ Forall (λ c, c = QueryPackages ∨ ∃ u, c = QueryLinks u) extra.
Proof.
  cbv zeta. rewrite update_progress_unfold. cbv zeta.
  destruct (lookup_status_frame d ag) as (_ & n & Hn & Hag).
  assert (add_answers (queried n ag) = add_answers ag) as Hadd.
  { clear. revert ag. induction n as [|n IH]; intros ag; [done|].
    simpl. by rewrite IH. }
  assert (Forall (λ c, c = QueryPackages ∨ ∃ u, c = QueryLinks u)
                 (replicate n QueryPackages)) as Hq.
  { apply Forall_forall. intros c [-> _]%elem_of_replicate. by left. }
  destruct ((lookup_status d ag).1.1) as [st|].
  - destruct (apply_status_frame now st (lookup_status d ag).1.2
                (lookup_status d ag).2) as (_ & _ & [->| [u ->]]);
      rewrite Hag; simpl.
    + split; [done|]. exists (replicate n QueryPackages).
      rewrite queried_calls, length_replicate. split; [done|]. split; [lia|done].
    + split; [done|]. exists (replicate n QueryPackages ++ [QueryLinks u]).
      rewrite queried_calls, length_app, length_replicate, app_assoc. simpl.
      split; [done|]. split; [lia|]. apply Forall_app. split; [done|].
      constructor; [|constructor]. right. eauto.
  - simpl. rewrite Hag. split; [done|]. exists (replicate n QueryPackages).
    rewrite queried_calls, length_replicate. split; [done|]. split; [lia|done].
Qed.

Lemma update_progress_identity now (d : Download) (ag : agent) :
  let d' := (update_progress now d ag).1 in
  id d' = id d ∧ nzo_id d' = nzo_id d ∧ title d' = title d
  ∧ category d' = category d ∧ source_url d' = source_url d
  ∧ download_links d' = download_links d ∧ created_at d' = created_at d
  ∧ jd_package_name d' = jd_package_name d
  ∧ error_message d' = error_message d.
Proof.
  cbv zeta. rewrite update_progress_unfold. cbv zeta.
  destruct (lookup_status_frame d ag) as (Hd & _).
  destruct ((lookup_status d ag).1.1) as [st|].
  - destruct (apply_status_frame now st (lookup_status d ag).1.2
                (lookup_status d ag).2) as (Hf & _).
    destruct_and!.
    destruct Hd as [Hd|[u Hd]]; rewrite Hd in *; simpl in *; by repeat split.
  - simpl. destruct Hd as [->|[u ->]]; by repeat split.
Qed.

(** X20.  A poll changes neither the identity of a download (identifier,
    queue identifier, title, category, source, links, creation time,
    package name) nor its error message.  When the status changes it
    becomes completed, downloading, extracting or queued: a poll never
    fails nor pauses a download.  The completion time is set only with
    the completed status.  A poll makes at most three requests to the
    agent, none of them a submission, and none at all for a download
    with neither an identifier nor a package name, which it returns as
    it is. *)
Theorem update_progress_frame (now : Z) (d : Download) (ag : agent) :
  let r := update_progress now d ag in
  (id r.1 = id d ∧ nzo_id r.1 = nzo_id d ∧ title r.1 = title d
   ∧ category r.1 = category d ∧ source_url r.1 = source_url d
   ∧ download_links r.1 = download_links d ∧ created_at r.1 = created_at d
   ∧ jd_package_name r.1 = jd_package_name d
   ∧ error_message r.1 = error_message d)
  ∧ (status r.1 = status d
     ∨ status r.1 ∈ [COMPLETED; DOWNLOADING; EXTRACTING; QUEUED])
  ∧ (completed_at r.1 = completed_at d
     ∨ (status r.1 = COMPLETED ∧ completed_at r.1 = Some now))
  ∧ add_answers r.2 = add_answers ag
  ∧ (∃ extra, calls r.2 = calls ag ++ extra
              ∧ (length extra ≤ 3)%nat
              ∧ Forall (λ c, c = QueryPackages ∨ ∃ u, c = QueryLinks u) extra)
  ∧ (opt_truthy (jd_uuid d) = false →
     opt_truthy (jd_package_name d) = false → r = (d, ag)).
Proof.
  cbv zeta. split; [apply update_progress_identity|].
  split; [|split; [|split; [apply update_progress_calls|
                            split; [apply update_progress_calls
                                   |apply update_progress_untracked]]]].
  - rewrite update_progress_unfold. cbv zeta.
    destruct (lookup_status_frame d ag) as (Hd & _).
    assert (status (lookup_status d ag).1.2 = status d) as Hst
      by (destruct Hd as [->|[u ->]]; done).
    destruct ((lookup_status d ag).1.1) as [st|]; [|by left].
    rewrite <- Hst. apply apply_status_status.
  - rewrite update_progress_unfold. cbv zeta.
    destruct (lookup_status_frame d ag) as (Hd & _).
    assert (completed_at (lookup_status d ag).1.2 = completed_at d) as Hc
      by (destruct Hd as [->|[u ->]]; done).
    destruct ((lookup_status d ag).1.1) as [st|]; [|by left].
    rewrite <- Hc. apply apply_status_frame.
Qed.

Lemma update_all_progress_cons clock k (download : Download) rest ag :
  update_all_progress clock ((k, download) :: rest) ag
  = let r := if bool_decide (status download ∈ active_statuses)
             then update_progress (clock k) download ag
             else (download, ag) in
    let r' := update_all_progress clock rest r.2 in
    ((k, r.1) :: r'.1, r'.2).
Proof.
  simpl. unfold mbind, agent_bind, mret, agent_ret. cbv zeta.
  case_bool_decide.
  - destruct (update_progress (clock k) download ag) as [d' ag'].
    simpl. by destruct (update_all_progress clock rest ag').
  - simpl. by destruct (update_all_progress clock rest ag).
Qed.

Lemma found_key_pointwise x (s s' : list (string * Download)) :
  Forall2 (λ kv kv', kv'.1 = kv.1 ∧ nzo_id kv'.2 = nzo_id kv.2) s s' →
  found_key x s' = found_key x s.
Proof.
  intros H. unfold found_key, od_mem.
  assert (assoc x s' = None ↔ assoc x s = None) as Hnone.
  { induction H as [|[k v] [k' v'] s s' [Hk _] _ IH]; simpl in *; [done|].
    subst k'. by destruct (String.eqb x k). }
  assert (List.find (λ kv, String.eqb (nzo_id kv.2) x) s'
          = None ∧ List.find (λ kv, String.eqb (nzo_id kv.2) x) s = None
          ∨ ∃ kv kv', List.find (λ kv, String.eqb (nzo_id kv.2) x) s' = Some kv'
                      ∧ List.find (λ kv, String.eqb (nzo_id kv.2) x) s = Some kv
                      ∧ kv'.1 = kv.1) as Hfind.
  { clear Hnone.
    induction H as [|[k v] [k' v'] s s' [Hk Hn] _ IH]; simpl in *; [by left|].
    rewrite Hn. destruct (String.eqb (nzo_id v) x); [|done].
    right. by exists (k, v), (k', v'). }
  destruct (assoc x s') eqn:Hs', (assoc x s) eqn:Hs.
  - by rewrite !bool_decide_true by eauto.
  - destruct Hnone as [_ Hn]. by specialize (Hn eq_refl).
  - destruct Hnone as [Hn _]. by specialize (Hn eq_refl).
  - rewrite !bool_decide_false by (by intros [? ?]).
    destruct Hfind as [[-> ->]|(kv & kv' & -> & -> & Hk)]; [done|].
    simpl. by rewrite Hk.
Qed.

(** X21.  A pass over the store polls the downloads that are active and
    no other: a completed or failed download is left as it is.  The keys
    and their order are kept, every download keeps its identifier and
    its queue identifier, so that every lookup finds the entry it found
    before, and the invariant of the store is kept.  The pass makes at
    most three requests for each active download, and none when no
    download is active. *)
Theorem update_all_progress_frame (clock : string → Z)
    (s : list (string * Download)) (ag : agent) :
  let r := update_all_progress clock s ag in
  Forall2 (λ kv kv',
             kv'.1 = kv.1 ∧ id kv'.2 = id kv.2 ∧ nzo_id kv'.2 = nzo_id kv.2
             ∧ (status kv.2 ∈ completed_statuses → kv'.2 = kv.2)
             ∧ (status kv'.2 = FAILED → status kv.2 = FAILED)) s r.1
  ∧ r.1.*1 = s.*1
  ∧ (∀ x, found_key x r.1 = found_key x s)
  ∧ (well_formed s → well_formed r.1)
  ∧ (length (calls r.2)
     ≤ length (calls ag)
       + 3 * length (filter (λ kv, status kv.2 ∈ active_statuses) s))%nat
  ∧ (Forall (λ kv, status kv.2 ∈ completed_statuses) s → r = (s, ag)).
Proof.
  cbv zeta.
  assert (∀ st : DownloadStatus,
            st ∈ completed_statuses → st ∈ active_statuses → False) as Hexcl.
  { intros st. unfold completed_statuses, active_statuses.
    rewrite !elem_of_cons, !elem_of_nil. destruct st; intuition discriminate. }
  assert (Forall2 (λ kv kv',
             kv'.1 = kv.1 ∧ id kv'.2 = id kv.2 ∧ nzo_id kv'.2 = nzo_id kv.2
             ∧ (status kv.2 ∈ completed_statuses → kv'.2 = kv.2)
             ∧ (status kv'.2 = FAILED → status kv.2 = FAILED)) s
            (update_all_progress clock s ag).1
          ∧ (length (calls (update_all_progress clock s ag).2)
             ≤ length (calls ag)
               + 3 * length (filter (λ kv, status kv.2 ∈ active_statuses) s))%nat)
    as [Hall Hcalls].
  { revert ag. induction s as [|[k d] s IH]; intros ag.
    - split; [constructor|simpl; lia].
    - rewrite update_all_progress_cons. cbv zeta. simpl fst. simpl snd.
      rewrite filter_cons. simpl.
      destruct (decide (status d ∈ active_statuses)) as [Hact|Hact].
      + rewrite bool_decide_true by done.
        destruct (IH (update_progress (clock k) d ag).2) as [IH1 IH2].
        pose proof (update_progress_identity (clock k) d ag) as Hid.
        pose proof (update_progress_calls (clock k) d ag)
          as (_ & extra & Hextra & Hlen & _).
        cbv zeta in *. destruct Hid as (Hid & Hnzo & _).
        split.
        * constructor; [|done]. simpl. split; [done|]. split; [done|].
          split; [done|]. split; [intros ?; exfalso; eauto|].
          intros Hfailed.
          pose proof (update_progress_unfold (clock k) d ag) as Hu.
          cbv zeta in Hu.
          destruct (lookup_status_frame d ag) as (Hd & _).
          assert (status (lookup_status d ag).1.2 = status d) as Hst
            by (destruct Hd as [->|[u ->]]; done).
          rewrite Hu in Hfailed.
          destruct ((lookup_status d ag).1.1) as [st|];
            [|by rewrite <- Hst].
          destruct (apply_status_status (clock k) st (lookup_status d ag).1.2
                      (lookup_status d ag).2) as [Heq|Hin].
          -- by rewrite <- Hst, <- Heq.
          -- cbv zeta in Hin. rewrite Hfailed in Hin.
             rewrite !elem_of_cons, elem_of_nil in Hin.
             intuition discriminate.
        * rewrite Hextra, length_app in IH2. simpl. lia.
      + rewrite bool_decide_false by done. simpl.
        destruct (IH ag) as [IH1 IH2]. split; [|done].
        constructor; [|done]. simpl. done. }
  split; [exact Hall|].
  assert ((update_all_progress clock s ag).1.*1 = s.*1) as Hkeys.
  { clear Hcalls. revert Hall. generalize (update_all_progress clock s ag).1.
    intros s' Hall.
    induction Hall as [|[k v] [k' v'] ? ? (Hk & _) _ IH]; [done|].
    rewrite !fmap_cons, IH. simpl in *. by rewrite Hk. }
  split; [exact Hkeys|]. split; [|split; [|split; [exact Hcalls|]]].
  - intros x. apply found_key_pointwise.
    eapply Forall2_impl; [exact Hall|]. intros ? ? (? & _ & ? & _). done.
  - intros [Hnd Hid]. split; [by rewrite Hkeys|].
    clear Hkeys Hcalls Hnd. revert Hall.
    generalize (update_all_progress clock s ag).1. intros s' Hall.
    induction Hall as [|[k v] [k' v'] ? ? (Hk & Hi & _) _ IH];
      [constructor|].
    apply Forall_cons in Hid as [Hkv Hid]. constructor; [|by apply IH].
    simpl in *. congruence.
  - intros Hdone. clear Hall Hcalls Hkeys. revert ag.
    induction s as [|[k d] s IH]; intros ag; [done|].
    apply Forall_cons in Hdone as [Hd Hdone]. simpl in Hd.
    rewrite update_all_progress_cons. cbv zeta.
    rewrite bool_decide_false by eauto. simpl. by rewrite IH.
Qed.

Lemma cleanup_lookup now fs (downloads : gmap string Download) dl_id :
  (cleanup_stale_downloads now fs downloads).1 !! dl_id
  = dl ← downloads !! dl_id;
    if should_remove now fs dl then None else Some dl.
Proof.
  unfold cleanup_stale_downloads. simpl. rewrite lookup_foldl_delete.
  destruct (downloads !! dl_id) as [dl|] eqn:Hk; simpl.
  - destruct (should_remove now fs dl) eqn:Hrm.
    + rewrite decide_True; [done|]. apply elem_of_stale_ids. eauto.
    + rewrite decide_False; [done|].
      intros (dl' & ? & ?)%elem_of_stale_ids. congruence.
  - by case_decide.
Qed.

(** X22.  A cleanup pass is idempotent: a second pass at the same time
    on the same file system removes nothing.  What a pass leaves is a
    part of the store, and the pass returns zero exactly when it leaves
    the store as it was. *)
Theorem cleanup_is_idempotent (now : Z) (fs : gmap string fs_node)
    (downloads : gmap string Download) :
  let after := cleanup_stale_downloads now fs downloads in
  cleanup_stale_downloads now fs after.1 = (after.1, 0%nat)
  ∧ after.1 ⊆ downloads
  ∧ (after.2 = 0%nat ↔ after.1 = downloads).
Proof.
  cbv zeta.
  assert (stale_ids now fs (cleanup_stale_downloads now fs downloads).1 = [])
    as Hnone.
  { destruct (stale_ids now fs _) as [|k ks] eqn:Hs; [done|].
    assert (k ∈ stale_ids now fs (cleanup_stale_downloads now fs downloads).1)
      as (dl & Hk & Hrm)%elem_of_stale_ids by (rewrite Hs; left).
    rewrite cleanup_lookup in Hk.
    destruct (downloads !! k) as [dl'|]; simpl in Hk; [|done].
    destruct (should_remove now fs dl') eqn:Hrm'; [done|].
    injection Hk as ->. congruence. }
  split; [|split].
  - unfold cleanup_stale_downloads at 1. by rewrite Hnone.
  - apply map_subseteq_spec. intros k dl. rewrite cleanup_lookup.
    destruct (downloads !! k) as [dl'|]; simpl; [|done].
    by destruct (should_remove now fs dl').
  - pose proof (size_foldl_delete (stale_ids now fs downloads) downloads
                  (NoDup_stale_ids now fs downloads)) as Hsize.
    unfold cleanup_stale_downloads. simpl. split.
    + intros Hlen. by apply length_zero_iff_nil in Hlen as ->.
    + intros Heq. rewrite Heq in Hsize.
      assert (∀ k, k ∈ stale_ids now fs downloads →
                   is_Some (downloads !! k)) as Hin.
      { intros k (dl & -> & _)%elem_of_stale_ids. eauto. }
      specialize (Hsize Hin). lia.
Qed.

End poll_properties.

(** ** The requests: search feed and submission *)

Section endpoint_properties.
Import PyStr Newznab Indexer NewznabApi JDownloader Downloads DarkiWorld.
Import Verifier Manager Endpoint Scenario.

Lemma search_media_type_nil settings now auth_answer search_answer mt c :
  search settings now auth_answer search_answer (Some mt) c
  = ([], (ensure_authenticated settings now auth_answer c).2).
Proof.
  unfold search.
  destruct (ensure_authenticated settings now auth_answer c) as [ok c'].
  simpl. destruct ok; simpl; [|done].
  destruct search_answer as [|status_code [api_results|]]; try done;
    destruct (negb (status_code =? 200)); try done.
  by rewrite search_results_media_type.
Qed.

(** X23.  The search branch of the Newznab endpoint answers an empty
    feed to every query, whatever the upstream answers: it always asks
    for the media type of the indexer of the request, and a search
    restricted to a media type returns no title.  No listing and no
    probe is asked for; the client is changed by the authentication
    only. *)
Theorem search_feed_is_empty (fuel : nat) (settings : Settings) (now : Z)
    (auth_answer : response auth_page)
    (search_answer : response (list search_item))
    (pages : Z → Z → nat → response links_page) (answers : Z → response lien)
    (t : string) (categories_list : list Z) (season ep : option Z)
    (c : client) :
  search_feed fuel settings now auth_answer search_answer pages answers
    t categories_list season ep c
  = (Ok [], (ensure_authenticated settings now auth_answer c).2).
Proof.
  unfold search_feed, search_with_links.
  by rewrite search_media_type_nil.
Qed.

Lemma title_links_episode fuel settings now auth_answer pages answers
    season episode episode' verify_links max_links_per_title title c :
  title_links fuel settings now auth_answer pages answers None season episode
    verify_links max_links_per_title title c
  = title_links fuel settings now auth_answer pages answers None season episode'
      verify_links max_links_per_title title c.
Proof.
  unfold title_links. repeat case_match; simplify_eq; reflexivity.
Qed.

(** X28.  The episode asked for never changes what [search_with_links]
    returns: the filter by episode is applied for the series media type
    only, and a search for a media type returns no title. *)
Theorem episode_filter_never_applies (fuel : nat) (settings : Settings)
    (now : Z) (auth_answer : response auth_page)
    (search_answer : response (list search_item))
    (pages : Z → Z → nat → response links_page) (answers : Z → response lien)
    (media_type : option MediaType) (season episode episode' : option Z)
    (verify_links : bool) (max_links_per_title : nat) (c : client) :
  search_with_links fuel settings now auth_answer search_answer pages answers
    media_type season episode verify_links max_links_per_title c
  = search_with_links fuel settings now auth_answer search_answer pages answers
      media_type season episode' verify_links max_links_per_title c.
Proof.
  unfold search_with_links. destruct media_type as [mt|].
  { by rewrite search_media_type_nil. }
  destruct (search settings now auth_answer search_answer None c)
    as [titles c'].
  assert (all_title_links fuel settings now auth_answer pages answers None
            season episode verify_links max_links_per_title titles c'
          = all_title_links fuel settings now auth_answer pages answers None
              season episode' verify_links max_links_per_title titles c')
    as Hall.
  { revert c'. induction titles as [|title titles IH]; intros c'; [done|].
    simpl all_title_links.
    rewrite (title_links_episode _ _ _ _ _ _ _ episode episode').
    destruct (title_links _ _ _ _ _ _ _ _ episode' _ _ _ _) as [[links| |] c''];
      [|done|done].
    by rewrite IH. }
  by destruct titles.
Qed.

Lemma truthy_app a b : truthy b = true → truthy (a +:+ b) = true.
Proof. intros Hb. destruct a; [exact Hb|done]. Qed.

Lemma package_name_truthy cat clean_title link_id :
  truthy (package_name cat clean_title link_id) = true.
Proof.
  unfold package_name. apply truthy_app. unfold download_title.
  destruct (truthy clean_title) eqn:Ht; [done|]. done.
Qed.

Lemma assoc_od_set k (d : Download) s : assoc k (od_set k d s) = Some d.
Proof.
  unfold od_set, od_mem. case_bool_decide as Hmem.
  - change ((λ kv : string * Download,
               if String.eqb kv.1 k then (kv.1, d) else kv) <$> s)
      with (od_mutate k (λ _, d) s).
    rewrite assoc_od_mutate, decide_True by done.
    by destruct Hmem as [? ->].
  - assert (assoc k s = None) as Hnone
      by (destruct (assoc k s); [exfalso; eauto|done]).
    clear Hmem. induction s as [|[k' v] s IH]; simpl in *.
    + by rewrite String.eqb_refl.
    + destruct (String.eqb k k'); [done|by apply IH].
Qed.

Lemma add_download_unfold settings_output_path cat download_url clean_title
    link_id new_id now hms s ag :
  add_download settings_output_path cat download_url clean_title link_id
    new_id now hms s ag
  = if negb (opt_truthy download_url) then ((None, s), ag)
    else
      let url := default "" download_url in
      let name := package_name cat clean_title link_id in
      let folder := output_folder settings_output_path cat clean_title link_id in
      let d :=
        new_download new_id now hms (download_title clean_title link_id) cat
          [url]
          (match link_id with
           | Some n => if n =? 0 then url
                       else "darkiworld://link/" +:+ str_of_int n
           | None => url
           end) in
      let package_id := default None (head (add_answers ag)) in
      let ag' := (add_links [url] name folder ag).2 in
      if opt_truthy package_id then
        ((Some (nzo_id d),
          od_mutate new_id
            (λ download,
               set_output_path (Some folder)
                 (set_jd_package_name (Some name)
                    (set_jd_uuid package_id download)))
            (od_set new_id d s)), ag')
      else ((Some (nzo_id d), od_set new_id d s), ag').
Proof.
  unfold add_download, create_download, mbind, agent_bind, mret, agent_ret,
    add_links.
  destruct (opt_truthy download_url); [|done].
  change (negb true) with false. cbv beta iota zeta.
  by destruct (opt_truthy (default None (head (add_answers ag)))).
Qed.

(** X24.  A submission that the agent does not accept (no identifier
    comes back) is still answered with a queue identifier, and leaves the
    download queued, without error message, identifier or package name:
    no later poll asks the agent about it or changes it, so it stays in
    the queue and is never failed. *)
Theorem failed_submission_stays_queued (settings_output_path cat : string)
    (download_url : option string) (clean_title : string)
    (link_id : option Z) (new_id : string) (now : Z) (hms : string)
    (s : list (string * Download)) (ag : agent) :
  opt_truthy download_url = true →
  opt_truthy (default None (head (add_answers ag))) = false →
  let r := add_download settings_output_path cat download_url clean_title
             link_id new_id now hms s ag in
  ∃ d,
    r.1.1 = Some (nzo_id d)
    ∧ get_download new_id r.1.2 = Some d
    ∧ status d = QUEUED
    ∧ error_message d = None
    ∧ d ∈ get_active_downloads None (to_map r.1.2)
    ∧ ∀ now' ag', update_progress now' d ag' = (d, ag').
Proof.
  intros Hurl Hid. cbv zeta. rewrite add_download_unfold, Hurl.
  simpl negb. cbv iota zeta. rewrite Hid.
  match goal with
  | |- context [od_set _ ?d0 s] => set (d := d0)
  end.
  exists d. simpl fst. simpl snd.
  assert (assoc new_id (od_set new_id d s) = Some d) as Hnew
    by apply assoc_od_set.
  split; [done|]. split; [unfold get_download; by rewrite Hnew|].
  split; [done|]. split; [done|]. split.
  - unfold get_active_downloads, get_downloads_by_category. simpl.
    apply list_elem_of_filter. split; [apply elem_of_cons; by left|].
    by eapply values_to_map.
  - intros now' ag'. by apply update_progress_untracked.
Qed.

(** X25.  A submission that the agent accepts stores the identifier
    that came back, the package name (the title, after the category in
    upper case between brackets when there is one) and the output folder;
    the download stays queued until a poll.  The package name is never
    empty, and with a category its normal form is not empty either.  A
    poll resolves the download whenever the packages of its second
    query hold one whose name is the normal form of the package name,
    whatever the identifier that came back. *)
Theorem submitted_download_is_resolved (settings_output_path cat : string)
    (download_url : option string) (clean_title : string)
    (link_id : option Z) (new_id : string) (now : Z) (hms : string)
    (s : list (string * Download)) (ag : agent) (package_id : string) :
  opt_truthy download_url = true →
  head (add_answers ag) = Some (Some package_id) →
  truthy package_id = true →
  let r := add_download settings_output_path cat download_url clean_title
             link_id new_id now hms s ag in
  let name := package_name cat clean_title link_id in
  let folder := output_folder settings_output_path cat clean_title link_id in
  ∃ d,
    r.1.1 = Some (nzo_id d)
    ∧ get_download new_id r.1.2 = Some d
    ∧ status d = QUEUED
    ∧ jd_uuid d = Some package_id
    ∧ jd_package_name d = Some name
    ∧ output_path d = Some folder
    ∧ calls r.2 = calls ag ++ [AddLinks [default "" download_url] name folder]
    ∧ truthy name = true
    ∧ (truthy cat = true → truthy (normalize_jd_name name) = true)
    ∧ ∀ ag' pkg,
        pkg ∈ next_packages (queried 1 ag') →
        pkg_name pkg = normalize_jd_name name →
        truthy (pkg_name pkg) = true →
        is_Some (lookup_status d ag').1.1.
Proof.
  intros Hurl Hhead Hid. cbv zeta. rewrite add_download_unfold, Hurl.
  simpl negb. cbv iota zeta. rewrite Hhead.
  change (default None (Some (Some package_id))) with (Some package_id).
  change (opt_truthy (Some package_id)) with (truthy package_id).
  rewrite Hid.
  match goal with
  | |- context [od_mutate _ ?f0 (od_set _ ?d0 s)] => set (d := d0); set (f := f0)
  end.
  exists (f d). simpl fst. simpl snd.
  assert (assoc new_id (od_mutate new_id f (od_set new_id d s)) = Some (f d))
    as Hnew.
  { rewrite assoc_od_mutate, decide_True by done. by rewrite assoc_od_set. }
  split; [done|].
  split; [change (id d) with new_id; unfold get_download; by rewrite Hnew|].
  split; [done|]. split; [done|]. split; [done|]. split; [done|].
  split; [done|]. split; [apply package_name_truthy|]. split.
  - intros Hcat. unfold package_name. rewrite Hcat.
    change (("[" +:+ upper cat +:+ "] ")
            +:+ download_title clean_title link_id)
      with ("[" +:+ ((upper cat +:+ "] ")
                     +:+ download_title clean_title link_id)).
    by rewrite normalize_jd_name_app.
  - intros ag' pkg Hin Hname Htruthy.
    rewrite lookup_status_unfold. cbv zeta.
    change (jd_uuid (f d)) with (Some package_id).
    change (jd_package_name (f d))
      with (Some (package_name cat clean_title link_id)).
    unfold opt_truthy. rewrite Hid, package_name_truthy.
    destruct (find_package (Some package_id) None (next_packages ag'));
      [by eexists|].
    simpl default. rewrite find_package_by_name, <- Hname, Htruthy.
    destruct (by_name (pkg_name pkg) (next_packages (queried 1 ag')))
      as [found|] eqn:Hfound; [by eexists|].
    exfalso. by eapply by_name_None.
Qed.

End endpoint_properties.

(** ** Queue identifiers *)

Section queue_identifier_properties.
Import PyStr JDownloader Downloads Manager Endpoint Scenario.

Lemma delete_download_found_key download_id s :
  delete_download download_id s
  = match found_key download_id s with
    | Some k => (true, od_del k s)
    | None => (false, s)
    end.
Proof.
  unfold delete_download, found_key.
  destruct (od_mem download_id s); [done|].
  by destruct (List.find _ s) as [[k dl]|].
Qed.




(** X26.  The identifier shown for a download in the queue and in the
    history leads back to it: when no other entry of the store has that
    identifier as key or as queue identifier, the lookup by the slot
    identifier finds the download, and the delete request with it
    removes that entry (the value "all" apart, which empties the
    store). *)
Theorem slot_identifier_round_trip (s : list (string * Download))
    (d : Download) :
  well_formed s →
  (id d, d) ∈ s →
  (∀ k d', (k, d') ∈ s → k ≠ id d →
           k ≠ slot_nzo_id d ∧ nzo_id d' ≠ slot_nzo_id d) →
  get_download (slot_nzo_id d) s = Some d
  ∧ (slot_nzo_id d ≠ "all" →
     delete_request (slot_nzo_id d) s = od_del (id d) s)
  ∧ assoc (id d) (od_del (id d) s) = None.
Proof.
  intros Hwf Hin Hother.
  assert (assoc (id d) s = Some d) as Hd by (apply assoc_NoDup; [apply Hwf|done]).
  assert (get_download (slot_nzo_id d) s = Some d) as Hget.
  { unfold get_download.
    destruct (assoc (slot_nzo_id d) s) as [d'|] eqn:Ha.
    - destruct (decide (slot_nzo_id d = id d)) as [Heq|Hne].
      + rewrite Heq in Ha. congruence.
      + apply assoc_Some_elem in Ha.
        by destruct (Hother _ _ Ha Hne) as [? _].
    - rewrite find_values.
      pose proof (find_split
                    (λ kv : string * Download,
                       String.eqb (nzo_id kv.2) (slot_nzo_id d)) s) as Hs.
      destruct (List.find _ s) as [[k d']|] eqn:Hfind; simpl.
      + destruct Hs as (Hp%String.eqb_eq & _). simpl in Hp.
        apply find_elem in Hfind as [Hk _].
        destruct (decide (k = id d)) as [->|Hne].
        * f_equal. rewrite (assoc_NoDup (id d) d' s) in Hd;
            [congruence|apply Hwf|done].
        * by destruct (Hother _ _ Hk Hne) as [_ ?].
      + specialize (Hs _ Hin). simpl in Hs.
        apply String.eqb_neq in Hs. unfold slot_nzo_id in *.
        destruct (truthy (nzo_id d)); [done|congruence]. }
  split; [exact Hget|]. split.
  - intros Hall. unfold delete_request.
    destruct (String.eqb_spec (slot_nzo_id d) "all") as [?|_]; [done|].
    rewrite delete_download_found_key.
    destruct (found_key_get_download (slot_nzo_id d) s Hwf) as [-> _].
    by rewrite Hget.
  - by rewrite assoc_od_del, decide_True.
Qed.


End queue_identifier_properties.

(** ** Instances of the conditional properties *)

Section instances.
Import PyStr JDownloader Downloads DarkiWorld Verifier Manager Endpoint Scenario.

Lemma verification_pass_witness :
  let c := with_session new_client 1 in
  let answers := λ link_id : Z,
    if link_id =? 1
    then Resp 200 (Some {| lien_deleted_at := None; lien_active := Some 1;
                           lien_directDL := None;
                           lien_lien := Some "https://send.cm/abc" |})
    else Raises in
  session_valid 0 c = true
  ∧ (max_pages ≤ 50)%nat
  ∧ get_title_links_verified 50 unconfigured 0 Raises two_pages answers 7 20 5 c
    = get_title_links_verified 50 unconfigured 0 Raises two_pages answers 7 20 1 c.
Proof.
  cbv zeta. split; [reflexivity|]. split; [reflexivity|].
  destruct (verification_pass 50 unconfigured 0 Raises two_pages
              (λ link_id : Z,
                 if link_id =? 1
                 then Resp 200 (Some {| lien_deleted_at := None;
                                        lien_active := Some 1;
                                        lien_directDL := None;
                                        lien_lien := Some "https://send.cm/abc" |})
                 else Raises)
              7 20 5 (with_session new_client 1) eq_refl (le_n max_pages))
    as (l1 & Hl1 & Hv1 & _).
  destruct (verification_pass 50 unconfigured 0 Raises two_pages
              (λ link_id : Z,
                 if link_id =? 1
                 then Resp 200 (Some {| lien_deleted_at := None;
                                        lien_active := Some 1;
                                        lien_directDL := None;
                                        lien_lien := Some "https://send.cm/abc" |})
                 else Raises)
              7 20 1 (with_session new_client 1) eq_refl (le_n max_pages))
    as (l2 & Hl2 & Hv2 & _).
  rewrite Hl1 in Hl2. injection Hl2 as <-. rewrite Hv1, Hv2. reflexivity.
Defined.

Lemma delete_download_removes_found_witness :
  well_formed [("d1", a_download)]
  ∧ remove_download "SABnzbd_nzo_Test_Movie_120000" [("d1", a_download)]
    = Some (true, []).
Proof.
  assert (well_formed [("d1", a_download)]) as Hwf.
  { split; [apply NoDup_singleton|constructor; [reflexivity|constructor]]. }
  split; [exact Hwf|].
  destruct (delete_download_removes_found "SABnzbd_nzo_Test_Movie_120000"
              [("d1", a_download)] Hwf) as (Hremove & _).
  rewrite Hremove. vm_compute. reflexivity.
Defined.

Lemma mark_changes_found_download_witness :
  well_formed [("d1", a_download)]
  ∧ status <$> assoc "d1" (mark_failed "d1" "boom" [("d1", a_download)]).2
    = Some FAILED.
Proof.
  assert (well_formed [("d1", a_download)]) as Hwf.
  { split; [apply NoDup_singleton|constructor; [reflexivity|constructor]]. }
  split; [exact Hwf|].
  pose proof (mark_changes_found_download "d1" "boom" 5
                [("d1", a_download)] Hwf) as H.
  change (get_download "d1" [("d1", a_download)]) with (Some a_download) in H.
  cbv beta iota zeta in H.
  destruct (H (mark_failed "d1" "boom" [("d1", a_download)]) _
              (or_intror (conj eq_refl eq_refl))) as (_ & Hfailed & _).
  change (id a_download) with "d1" in Hfailed. rewrite Hfailed. reflexivity.
Defined.

Lemma failed_submission_stays_queued_witness :
  let ag := an_agent [None] [] in
  let r := add_download "/output" "radarr" (Some "https://1fichier.com/?abc")
             "Test Movie" (Some 1) "n1" 0 "120000" [] ag in
  opt_truthy (default None (head (add_answers ag))) = false
  ∧ ∃ d, get_download "n1" r.1.2 = Some d ∧ status d = QUEUED.
Proof.
  cbv zeta. split; [reflexivity|].
  destruct (failed_submission_stays_queued "/output" "radarr"
              (Some "https://1fichier.com/?abc") "Test Movie" (Some 1) "n1" 0
              "120000" [] (an_agent [None] []) eq_refl eq_refl)
    as (d & _ & Hget & Hstatus & _).
  exists d. split; [exact Hget|exact Hstatus].
Defined.

Lemma submitted_download_is_resolved_witness :
  let ag := an_agent [Some "17"] [] in
  let r := add_download "/output" "radarr" (Some "https://1fichier.com/?abc")
             "Test: Movie?" (Some 1) "n1" 0 "120000" [] ag in
  head (add_answers ag) = Some (Some "17")
  ∧ ∃ d, get_download "n1" r.1.2 = Some d
         ∧ jd_package_name d = Some "[RADARR] Test: Movie?"
         ∧ output_path d = Some "/output/radarr/Test: Movie?".
Proof.
  cbv zeta. split; [reflexivity|].
  destruct (submitted_download_is_resolved "/output" "radarr"
              (Some "https://1fichier.com/?abc") "Test: Movie?" (Some 1) "n1" 0
              "120000" [] (an_agent [Some "17"] []) "17"
              eq_refl eq_refl eq_refl)
    as (d & _ & Hget & _ & _ & Hname & Hpath & _).
  exists d. split; [exact Hget|]. split; [exact Hname|exact Hpath].
Defined.

Lemma slot_identifier_round_trip_witness :
  well_formed [("d1", a_download)]
  ∧ get_download "SABnzbd_nzo_Test_Movie_120000" [("d1", a_download)]
    = Some a_download.
Proof.
  assert (well_formed [("d1", a_download)]) as Hwf.
  { split; [apply NoDup_singleton|constructor; [reflexivity|constructor]]. }
  split; [exact Hwf|].
  apply (slot_identifier_round_trip [("d1", a_download)] a_download Hwf).
  - apply list_elem_of_here.
  - intros k d' Hin Hk. apply list_elem_of_singleton in Hin.
    injection Hin as -> ->. by destruct Hk.
Defined.


End instances.
